(** * The deployment engine of kne ([deploy/deploy.go]), embedded and verified

    The file has two parts.  The first part embeds the Go code of
    [deploy/deploy.go]: errors and [fmt] formatting, the address arithmetic of
    the load-balancer pool ([inc], [makeConfig]), the two watch loops
    ([deploymentHealthy], [MeshnetSpec.Healthy]), the host side (binary
    lookup, the process-wide execer, the environment) with [KindSpec], the
    ingress provider [MetalLBSpec.Deploy] over a store of secrets and
    config-maps, and the orchestrator [Deployment.Deploy].  Log lines
    ([log.Infof]) are left out; what lies outside the package (the binaries
    on the path, the commands run, the container runtime, library calls
    such as [yaml.Marshal]) is a record of answers the functions take as
    an argument.  The second part states and proves the properties of the
    specification, C1 to C10. *)

From Stdlib Require Import ZArith Lia.
From stdpp Require Import base option list strings pretty gmap.

(* ================================================================== *)
(** * Part I: the embedding *)
(* ================================================================== *)

(** ** Go values shared by the whole package: errors and [fmt] verbs *)
Module Go.

(** The double quote and the backslash, built from their codes. *)
Definition dq : string := String (Ascii.ascii_of_nat 34) EmptyString.
Definition backslash : string := String (Ascii.ascii_of_nat 92) EmptyString.

(** [%q] on a string of printable ASCII: the text between double quotes, a
    quote or a backslash in it escaped by a backslash. *)
Fixpoint escape (s : string) : string :=
  match s with
  | EmptyString => EmptyString
  | String c rest =>
      if bool_decide (c = Ascii.ascii_of_nat 34) || bool_decide (c = Ascii.ascii_of_nat 92)
      then backslash +:+ String c (escape rest)
      else String c (escape rest)
  end.

Definition quote (s : string) : string := dq +:+ escape s +:+ dq.

(** Go's [error] values as this package builds and receives them. *)
#[warnings="-register-all"]
Inductive error : Type :=
| Errorf (msg : string)                   (* fmt.Errorf(msg) with no wrapped cause *)
| Wrapf (prefix : string) (cause : error) (* fmt.Errorf("<prefix>: %w", cause) *)
| ErrList (errs : list error)             (* what errlist.List.Err() returns *)
| External (what : string).               (* an error handed back by a collaborator *)

(** [strings.Join]. *)
Fixpoint join (sep : string) (l : list string) : string :=
  match l with
  | [] => EmptyString
  | [s] => s
  | s :: rest => s +:+ sep +:+ join sep rest
  end.

(** [err.Error()]; [sep] is errlist's [Separator]. *)
Fixpoint Error (sep : string) (e : error) : string :=
  match e with
  | Errorf msg => msg
  | Wrapf prefix cause => prefix +:+ ": " +:+ Error sep cause
  | ErrList errs => join sep (map (Error sep) errs)
  | External what => what
  end.

(** [errlist.List]: [Add] appends, [Err] is nil on the empty list. *)
Definition errlist_Add (errs : list error) (e : error) : list error := errs ++ [e].
Definition errlist_Err (errs : list error) : option error :=
  match errs with
  | [] => None
  | _ => Some (ErrList errs)
  end.

(** [sub] occurs in [s]. *)
Definition contains (sub s : string) : Prop := exists pre post, s = pre +:+ sub +:+ post.

End Go.

(** ** Package [net]: addresses as byte slices *)
Module Net.
Local Open Scope Z_scope.

(** A [net.IP] is a [[]byte]: a list of integers in [0, 256). *)
Definition is_byte (b : Z) : Prop := 0 <= b < 256.

(** The big-endian integer a byte slice stands for. *)
Definition be_val (ip : list Z) : Z := fold_left (fun acc b => acc * 256 + b) ip 0.

(** The four octets of an integer, most significant first. *)
Definition ip_of_val (v : Z) : list Z :=
  [(v / 2 ^ 24) mod 256; (v / 2 ^ 16) mod 256; (v / 2 ^ 8) mod 256; v mod 256].

Definition v4InV6Prefix : list Z := [0; 0; 0; 0; 0; 0; 0; 0; 0; 0; 255; 255].

(** [IP.To4]: a 4-byte slice is returned as it is, a 16-byte IPv4-mapped
    address gives its last four bytes, anything else nil. *)
Definition To4 (ip : list Z) : option (list Z) :=
  if (length ip =? 4)%nat then Some ip
  else if (length ip =? 16)%nat && bool_decide (take 12 ip = v4InV6Prefix)
       then Some (drop 12 ip)
       else None.

(** [IP.String]: dotted decimal for an IPv4 address; [other] stands for the
    textual forms of the remaining slices (IPv6 and malformed ones). *)
Definition IP_String (other : list Z -> string) (ip : list Z) : string :=
  match To4 ip with
  | Some [a; b; c; d] => pretty a +:+ "." +:+ pretty b +:+ "." +:+ pretty c +:+ "." +:+ pretty d
  | _ => other ip
  end.

(** Dotted decimal, the text of an IPv4 address. *)
Definition dotted (ip : list Z) : string := Go.join "." (map pretty ip).

Record IPNet := { IP : list Z; Mask : list Z }.

End Net.

(** ** The load-balancer address pool: [inc] and [makeConfig] *)
Module Pool.
Import Net.
Local Open Scope Z_scope.

(** [ip[j]++] on a [uint8]. *)
Definition incr_byte (b : Z) : Z := (b + 1) mod 256.

(** The inner loop of [inc],
    [for j := len(ip) - 1; j >= 0; j-- { ip[j]++; if ip[j] > 0 { break } }],
    entered with [j + 1 = j1]. *)
Fixpoint inc_carry (j1 : nat) (ip : list Z) : list Z :=
  match j1 with
  | O => ip
  | S j =>
      let ip' := <[j := incr_byte (ip !!! j)]> ip in
      if 0 <? ip' !!! j then ip' else inc_carry j ip'
  end.

(** The outer loop [for cnt > 0 { ...; cnt-- }]. *)
Fixpoint inc_loop (fuel : nat) (ip : list Z) (cnt : Z) : list Z :=
  if 0 <? cnt then
    match fuel with
    | O => ip
    | S fuel' => inc_loop fuel' (inc_carry (length ip) ip) (cnt - 1)
    end
  else ip.

(** [inc(ip, cnt)]: the loop runs [cnt] times, which is the fuel it gets. *)
Definition inc (ip : list Z) (cnt : Z) : list Z := inc_loop (Z.to_nat cnt) ip cnt.

Record pool := { Name : string; Protocol : string; Addresses : list string }.
Record metalLBConfig := { AddressPools : list pool }.

(** [makeConfig(n, count)].  [start] and [end] are fresh copies
    ([make] then [copy]), so [n.IP] and [start] are not written by the
    second [inc]. *)
Definition makeConfig (other : list Z -> string) (n : IPNet) (count : Z) : metalLBConfig :=
  let start := inc (IP n) 50 in
  let end_ := inc start count in
  {| AddressPools :=
       [ {| Name := "default";
            Protocol := "layer2";
            Addresses := [IP_String other start +:+ " - " +:+ IP_String other end_] |} ] |}.

(** The address [k] places after [b], as the specification counts:
    on the big-endian value, modulo [2^32]. *)
Definition ip_add (b : list Z) (k : Z) : list Z := ip_of_val ((be_val b + k) mod 2 ^ 32).

(** The subnet of the specification's example, 172.18.0.0/16. *)
Definition kind_subnet : IPNet := {| IP := [172; 18; 0; 0]; Mask := [255; 255; 0; 0] |}.

End Pool.

(** ** The objects and events of the cluster API that the watches read *)
Module K8s.
Local Open Scope Z_scope.

(** [appsv1.Deployment]: [Spec.Replicas] is an [*int32], nil when the field
    is left out; the status counters are [int32]. *)
Record Deployment := {
  Spec_Replicas : option Z;
  Status_Replicas : Z;
  Status_UpdatedReplicas : Z;
  Status_ReadyReplicas : Z;
  Status_AvailableReplicas : Z;
  Status_UnavailableReplicas : Z
}.

(** [appsv1.DaemonSet], its status counters. *)
Record DaemonSet := {
  Status_DesiredNumberScheduled : Z;
  Status_NumberReady : Z;
  Status_NumberUnavailable : Z
}.

(** The dynamic type of a [runtime.Object] carried by a watch event. *)
Inductive Object : Type :=
| ObjDeployment (d : Deployment)
| ObjDaemonSet (d : DaemonSet)
| ObjOther (kind : string).

Inductive EventType : Type := Added | Modified | Deleted | Bookmark | ErrorEvent.

Record Event := { Type_ : EventType; Object_ : Object }.

(** What one turn of the [select] in a watch loop receives: the context is
    done, an event arrives on the result channel, or the channel is closed. *)
Inductive Select : Type :=
| CtxDone
| Recv (e : Event)
| ChanClosed.

(** The same turn with another type on its event. *)
Definition retype (f : EventType -> EventType) (t : Select) : Select :=
  match t with
  | Recv e => Recv {| Type_ := f (Type_ e); Object_ := Object_ e |}
  | t => t
  end.

(** A watch loop either returns its [error] (nil on success) or still
    blocks in [select] when the observed turns are used up. *)
Inductive Result : Type :=
| Returns (err : option Go.error)
| Blocked.

End K8s.

(** ** The health watches: [deploymentHealthy] and [MeshnetSpec.Healthy] *)
Module Health.
Import Go K8s.
Local Open Scope Z_scope.

Definition errCanceled : error := Errorf "context canceled before healthy".
Definition errClosed : error := Errorf "watch channel closed before healthy".
(** [%T] of the nil pointer the failed type assertion leaves in [d]. *)
Definition errInvalidDeployment : error := Errorf "invalid object type: *v1.Deployment".
Definition errInvalidDaemonSet : error := Errorf "invalid object type: *v1.DaemonSet".

(** [var r int32 = 1; if d.Spec.Replicas != nil { r = *d.Spec.Replicas }]. *)
Definition desiredReplicas (d : Deployment) : Z :=
  match Spec_Replicas d with
  | Some r => r
  | None => 1
  end.

(** The condition of the last [if] in [deploymentHealthy]. *)
Definition deploymentReady (d : Deployment) : bool :=
  let r := desiredReplicas d in
  (Status_AvailableReplicas d =? r) &&
  (Status_ReadyReplicas d =? r) &&
  (Status_UnavailableReplicas d =? 0) &&
  (Status_Replicas d =? r) &&
  (Status_UpdatedReplicas d =? r).

(** The [for { select { ... } }] of [deploymentHealthy], over the turns the
    [select] takes. *)
Fixpoint deploymentHealthy_loop (turns : list Select) : Result :=
  match turns with
  | [] => Blocked
  | CtxDone :: _ => Returns (Some errCanceled)
  | ChanClosed :: _ => Returns (Some errClosed)
  | Recv e :: rest =>
      match Object_ e with
      | ObjDeployment d =>
          if deploymentReady d then Returns None else deploymentHealthy_loop rest
      | _ => Returns (Some errInvalidDeployment)
      end
  end.

(** [deploymentHealthy(ctx, c, name)]: [watch] is what
    [c.AppsV1().Deployments(name).Watch] gives, an error or the watch whose
    channel the loop reads. *)
Definition deploymentHealthy (watch : error + list Select) : Result :=
  match watch with
  | inl err => Returns (Some err)
  | inr turns => deploymentHealthy_loop turns
  end.

(** The condition of the last [if] in [MeshnetSpec.Healthy]. *)
Definition daemonSetReady (d : DaemonSet) : bool :=
  (Status_NumberReady d =? Status_DesiredNumberScheduled d) &&
  (Status_NumberUnavailable d =? 0).

Fixpoint MeshnetSpec_Healthy_loop (turns : list Select) : Result :=
  match turns with
  | [] => Blocked
  | CtxDone :: _ => Returns (Some errCanceled)
  | ChanClosed :: _ => Returns (Some errClosed)
  | Recv e :: rest =>
      match Object_ e with
      | ObjDaemonSet d =>
          if daemonSetReady d then Returns None else MeshnetSpec_Healthy_loop rest
      | _ => Returns (Some errInvalidDaemonSet)
      end
  end.

(** [MeshnetSpec.Healthy(ctx)]: [watch] is the result of the [Watch] call on
    the daemon-sets of the meshnet namespace. *)
Definition MeshnetSpec_Healthy (watch : error + list Select) : Result :=
  match watch with
  | inl err => Returns (Some err)
  | inr turns => MeshnetSpec_Healthy_loop turns
  end.

(** A turn that keeps the deployment watch waiting: an event whose object is
    a deployment that is not ready. *)
Definition deploymentPending (t : Select) : Prop :=
  exists e d, t = Recv e /\ Object_ e = ObjDeployment d /\ deploymentReady d = false.

(** A turn that keeps the daemon-set watch waiting. *)
Definition daemonSetPending (t : Select) : Prop :=
  exists e d, t = Recv e /\ Object_ e = ObjDaemonSet d /\ daemonSetReady d = false.

End Health.

(** ** Go functions that return an [error] and change state *)
Module Monad.
Import Go.

(** A computation over a state [S]: it returns an error or a value, and the
    state it leaves. *)
Definition M (S A : Type) : Type := S -> (error + A) * S.

Definition ret {S A : Type} (a : A) : M S A := fun s => (inr a, s).

(** [if err := m; err != nil { return err }] followed by [k]. *)
Definition bind {S A B : Type} (m : M S A) (k : A -> M S B) : M S B :=
  fun s =>
    match m s with
    | (inl e, s') => (inl e, s')
    | (inr a, s') => k a s'
    end.

(** [return e]. *)
Definition fail {S A : Type} (e : error) : M S A := fun s => (inl e, s).

(** [if err := m; err != nil { return f(err) }]: the error is wrapped. *)
Definition wrap {S A : Type} (f : error -> error) (m : M S A) : M S A :=
  fun s =>
    match m s with
    | (inl e, s') => (inl (f e), s')
    | r => r
    end.

(** [err := m]: the error is a value the caller inspects. *)
Definition catch {S A : Type} (m : M S A) : M S (option error) :=
  fun s =>
    match m s with
    | (inl e, s') => (inr (Some e), s')
    | (inr _, s') => (inr None, s')
    end.

(** [defer cleanup] before [m]: [cleanup] runs when [m] is left, with an
    error or without. *)
Definition defer {S A : Type} (cleanup : S -> S) (m : M S A) : M S A :=
  fun s => let '(r, s') := m s in (r, cleanup s').

Definition modify {S : Type} (f : S -> S) : M S unit := fun s => (inr tt, f s).
Definition gets {S A : Type} (f : S -> A) : M S A := fun s => (inr (f s), s).
Definition lift {S A : Type} (r : error + A) : M S A := fun s => (r, s).

(** [for _, x := range l { if err := body(x); err != nil { return err } }]. *)
Fixpoint forEach {S A : Type} (l : list A) (body : A -> M S unit) : M S unit :=
  match l with
  | [] => ret tt
  | x :: rest => bind (body x) (fun _ => forEach rest body)
  end.

(** What holds of the state when a computation returns without error. *)
Definition on_success {S A : Type} (m : M S A) (s : S) (Q : S -> Prop) : Prop :=
  match m s with
  | (inr _, s') => Q s'
  | (inl _, _) => True
  end.

End Monad.

Notation "x <- m ;; k" := (Monad.bind m (fun x => k))
  (at level 100, m at next level, right associativity, only parsing).
Notation "m ;; k" := (Monad.bind m (fun _ => k))
  (at level 100, right associativity, only parsing).

(** ** The host: binaries, the process-wide execer, the environment, files *)
Module Host.
Import Go Monad.

(** Where the execer writes a command's standard output: the logger's
    output, or a [bytes.Buffer] variable of the caller. *)
Inductive Writer : Type :=
| StandardLoggerOut
| BufferWriter (name : string).

(** The package's test stubs and the operating system's answers.
    [execResult n argv] is what the [n]-th command run by the execer does
    when it is [argv]: its error and the text it prints. *)
Record Stubs := {
  execLookPath : string -> error + string;
  execResult : nat -> list string -> option error * string;
  MkdirTemp : error + string;
  Create : string -> option error;
  Duration_String : Z -> string
}.

Record World := {
  env : gmap string string;
  execStdout : Writer;
  execStderr : Writer;
  buffers : gmap string string;
  files : gmap string string;
  dirs : list string;
  calls : list (list string)
}.

Definition set_env (f : gmap string string -> gmap string string) (w : World) : World :=
  {| env := f (env w); execStdout := execStdout w; execStderr := execStderr w;
     buffers := buffers w; files := files w; dirs := dirs w; calls := calls w |}.
Definition set_execStdout (o : Writer) (w : World) : World :=
  {| env := env w; execStdout := o; execStderr := execStderr w;
     buffers := buffers w; files := files w; dirs := dirs w; calls := calls w |}.
Definition set_buffers (f : gmap string string -> gmap string string) (w : World) : World :=
  {| env := env w; execStdout := execStdout w; execStderr := execStderr w;
     buffers := f (buffers w); files := files w; dirs := dirs w; calls := calls w |}.
Definition set_files (f : gmap string string -> gmap string string) (w : World) : World :=
  {| env := env w; execStdout := execStdout w; execStderr := execStderr w;
     buffers := buffers w; files := f (files w); dirs := dirs w; calls := calls w |}.
Definition set_dirs (f : list string -> list string) (w : World) : World :=
  {| env := env w; execStdout := execStdout w; execStderr := execStderr w;
     buffers := buffers w; files := files w; dirs := f (dirs w); calls := calls w |}.
Definition set_calls (f : list (list string) -> list (list string)) (w : World) : World :=
  {| env := env w; execStdout := execStdout w; execStderr := execStderr w;
     buffers := buffers w; files := files w; dirs := dirs w; calls := f (calls w) |}.

Definition newline : string := String (Ascii.ascii_of_nat 10) EmptyString.

(** [fmt.Errorf("install dependency %q to deploy", bin)]. *)
Definition missingDependency (bin : string) : error :=
  Errorf ("install dependency " +:+ quote bin +:+ " to deploy").

(** [execLookPath(bin)] returned an error. *)
Definition isMissing (st : Stubs) (bin : string) : bool :=
  match execLookPath st bin with
  | inl _ => true
  | inr _ => false
  end.

(** A byte of the string is [c]. *)
Fixpoint has_byte (c : Ascii.ascii) (s : string) : bool :=
  match s with
  | EmptyString => false
  | String a rest => bool_decide (a = c) || has_byte c rest
  end.

(** [strings.Split(s, sep)] for a separator of one byte. *)
Fixpoint Split (s : string) (sep : Ascii.ascii) : list string :=
  match s with
  | EmptyString => [EmptyString]
  | String a rest =>
      if bool_decide (a = sep) then EmptyString :: Split rest sep
      else match Split rest sep with
           | [] => [String a EmptyString]
           | field :: fields => String a field :: fields
           end
  end.

(** [strings.TrimSuffix]. *)
Definition TrimSuffix (s suffix : string) : string :=
  let n := String.length s in
  let m := String.length suffix in
  if (m <=? n)%nat && bool_decide (String.substring (n - m) m s = suffix)
  then String.substring 0 (n - m) s
  else s.

(** [filepath.Join(dir, name)] for clean path elements: an empty [dir] is
    left out. *)
Definition filepath_Join (dir name : string) : string :=
  if bool_decide (dir = EmptyString) then name else dir +:+ "/" +:+ name.

(** [os.Getenv]: the empty string when the variable is not set. *)
Definition os_Getenv (key : string) (w : World) : string := default EmptyString (env w !! key).

(** [os.Setenv]: refused ([EINVAL]) for an empty key, a key with [=] or a
    NUL byte, and a value with a NUL byte. *)
Definition os_Setenv (key value : string) : M World unit :=
  if bool_decide (key = EmptyString)
     || has_byte (Ascii.ascii_of_nat 61) key
     || has_byte (Ascii.ascii_of_nat 0) key
     || has_byte (Ascii.ascii_of_nat 0) value
  then fail (Wrapf "setenv" (External "invalid argument"))
  else modify (set_env (insert key value)).

(** [os.MkdirTemp("", "kne_kind_docker")]. *)
Definition os_MkdirTemp (st : Stubs) : M World string :=
  dir <- lift (MkdirTemp st) ;;
  modify (set_dirs (cons dir)) ;;
  ret dir.

(** [os.RemoveAll(dir)], its error dropped as a deferred call drops it. *)
Definition os_RemoveAll (dir : string) (w : World) : World :=
  set_files (filter (fun kv => negb (String.prefix (dir +:+ "/") (fst kv)) = true))
    (set_dirs (filter (fun d => d <> dir)) w).

(** [execer.SetStdout]. *)
Definition SetStdout (o : Writer) : M World unit := modify (set_execStdout o).

(** [var b bytes.Buffer] and [b.String()]. *)
Definition newBuffer (name : string) : M World unit :=
  modify (set_buffers (insert name EmptyString)).
Definition Buffer_String (name : string) (w : World) : string :=
  default EmptyString (buffers w !! name).

(** [execer.Exec(name, args...)]: the call is recorded, what the command
    prints goes to the execer's current standard output, and the command's
    error is returned. *)
Definition Exec (st : Stubs) (argv : list string) : M World unit :=
  fun w =>
    let '(err, out) := execResult st (length (calls w)) argv in
    let w1 := set_calls (fun cs => cs ++ [argv]) w in
    let w2 := match execStdout w with
              | StandardLoggerOut => w1
              | BufferWriter b => set_buffers (insert b (Buffer_String b w +:+ out)) w1
              end in
    (match err with Some e => inl e | None => inr tt end, w2).

(** Every command the execer runs succeeds. *)
Definition allSucceed (st : Stubs) : Prop :=
  forall (n : nat) (argv : list string), fst (execResult st n argv) = None.

End Host.

(** ** The cluster provider: [KindSpec] *)
Module Kind.
Import Go Monad Host.
Local Open Scope Z_scope.

Definition dockerConfigEnvVar : string := "DOCKER_CONFIG".

(** [fmt.Sprintf(kubeletConfigPathTemplate, node)]. *)
Definition kubeletConfigPath (node : string) : string := node +:+ ":/var/lib/kubelet/config.json".

(** What [dockerConfigTemplate] renders for a list of registries. *)
Definition dockerConfig (registries : list string) : string :=
  "{" +:+ newline +:+ "  " +:+ dq +:+ "auths" +:+ dq +:+ ": {" +:+ newline +:+
  foldr (fun val rest => "    " +:+ dq +:+ val +:+ dq +:+ ": {}" +:+ newline +:+ rest)
        EmptyString registries +:+
  "  }" +:+ newline +:+ "}" +:+ newline.

(** [ContainerImages] is a Go map; the list gives its pairs in the order
    the [range] of [loadContainerImages] visits them.  [Wait] is a
    [time.Duration]. *)
Record KindSpec := {
  Name : string;
  Recycle : bool;
  Version : string;
  Image : string;
  Retain : bool;
  Wait : Z;
  Kubecfg : string;
  GoogleArtifactRegistries : list string;
  ContainerImages : list (string * string);
  KindConfigFile : string;
  AdditionalManifests : list string
}.

(** [KindSpec.checkDependencies]. *)
Definition checkDependencies (st : Stubs) (k : KindSpec) : option error :=
  let bins := ["kind"] ++
              (if bool_decide (length (GoogleArtifactRegistries k) <> 0%nat) then ["gcloud"] else []) in
  errlist_Err
    (fold_left
       (fun errs bin =>
          match execLookPath st bin with
          | inl _ => errlist_Add errs (missingDependency bin)
          | inr _ => errs
          end)
       bins []).

(** [KindSpec.GetName]. *)
Definition GetName (k : KindSpec) : string :=
  if bool_decide (Name k <> EmptyString) then Name k else "kind".

(** [args = append(args, flag, value)] under [if value != ""]. *)
Definition flag (name value : string) : list string :=
  if bool_decide (value <> EmptyString) then [name; value] else [].

(** [writeDockerConfig(path, registries)]. *)
Definition writeDockerConfig (st : Stubs) (path : string) (registries : list string)
  : M World unit :=
  match Create st path with
  | Some e => fail e
  | None => modify (set_files (insert path (dockerConfig registries)))
  end.

(** [KindSpec.setupGoogleArtifactRegistryAccess]. *)
Definition setupGoogleArtifactRegistryAccess (st : Stubs) (k : KindSpec) : M World unit :=
  tempDockerDir <- os_MkdirTemp st ;;
  defer (os_RemoveAll tempDockerDir) (
    originalConfig <- gets (os_Getenv dockerConfigEnvVar) ;;
    defer (fun w => snd (os_Setenv dockerConfigEnvVar originalConfig w)) (
      os_Setenv dockerConfigEnvVar tempDockerDir ;;
      let configPath := filepath_Join tempDockerDir "config.json" in
      writeDockerConfig st configPath (GoogleArtifactRegistries k) ;;
      newBuffer "token" ;;
      SetStdout (BufferWriter "token") ;;
      Exec st ["gcloud"; "auth"; "print-access-token"] ;;
      SetStdout StandardLoggerOut ;;
      forEach (GoogleArtifactRegistries k) (fun r =>
        let s := "https://" +:+ r in
        token <- gets (Buffer_String "token") ;;
        Exec st ["docker"; "login"; "-u"; "oauth2accesstoken"; "-p"; token; s]) ;;
      let args := ["get"; "nodes"] ++ flag "--name" (Name k) in
      newBuffer "nodes" ;;
      SetStdout (BufferWriter "nodes") ;;
      Exec st ("kind" :: args) ;;
      SetStdout StandardLoggerOut ;;
      nodes <- gets (Buffer_String "nodes") ;;
      forEach (Split nodes (Ascii.ascii_of_nat 32)) (fun node =>
        let node := TrimSuffix node newline in
        Exec st ["docker"; "cp"; configPath; kubeletConfigPath node] ;;
        Exec st ["docker"; "exec"; node; "systemctl"; "restart"; "kubelet.service"]))).

(** [KindSpec.loadContainerImages]. *)
Definition loadContainerImages (st : Stubs) (k : KindSpec) : M World unit :=
  forEach (ContainerImages k) (fun '(s, d) =>
    wrap (Wrapf ("failed to pull " +:+ quote s)) (Exec st ["docker"; "pull"; s]) ;;
    wrap (Wrapf ("failed to tag " +:+ quote s +:+ " with " +:+ quote d))
         (Exec st ["docker"; "tag"; s; d]) ;;
    let args := ["load"; "docker-image"; d] ++ flag "--name" (Name k) in
    wrap (Wrapf ("failed to load " +:+ quote d)) (Exec st ("kind" :: args))).

(** The read-only probe of [Deploy] and [Healthy]. *)
Definition clusterInfo (name : string) : list string :=
  ["kubectl"; "cluster-info"; "--context"; "kind-" +:+ name].

(** The command line that creates the cluster. *)
Definition createCluster (st : Stubs) (k : KindSpec) : list string :=
  "kind" ::
  ["create"; "cluster"] ++
  flag "--name" (Name k) ++
  flag "--image" (Image k) ++
  (if Retain k then ["--retain"] else []) ++
  (if bool_decide (Wait k <> 0) then ["--wait"; Duration_String st (Wait k)] else []) ++
  flag "--kubeconfig" (Kubecfg k) ++
  flag "--config" (KindConfigFile k).

(** [KindSpec.Deploy], after the recycle probe did not end it. *)
Definition create (st : Stubs) (k : KindSpec) : M World unit :=
  wrap (Wrapf "failed to create cluster") (Exec st (createCluster st k)) ;;
  forEach (AdditionalManifests k) (fun s =>
    wrap (Wrapf "failed to deploy manifest") (Exec st ["kubectl"; "apply"; "-f"; s])) ;;
  (if bool_decide (length (GoogleArtifactRegistries k) <> 0%nat)
   then wrap (Wrapf "failed to setup Google artifact registry access")
             (setupGoogleArtifactRegistryAccess st k)
   else ret tt) ;;
  (if bool_decide (length (ContainerImages k) <> 0%nat)
   then wrap (Wrapf "failed to load container images") (loadContainerImages st k)
   else ret tt).

(** [KindSpec.Deploy]. *)
Definition Deploy (st : Stubs) (k : KindSpec) : M World unit :=
  lift (match checkDependencies st k with Some e => inl e | None => inr tt end) ;;
  recycled <- (if Recycle k
               then err <- catch (Exec st (clusterInfo (Name k))) ;;
                    ret (bool_decide (err = None))
               else ret false) ;;
  if recycled : bool then ret tt else create st k.

(** [KindSpec.Delete] and [KindSpec.Healthy]. *)
Definition Delete (st : Stubs) (k : KindSpec) : M World unit :=
  wrap (Wrapf "failed to delete cluster using cli")
       (Exec st ("kind" :: ["delete"; "cluster"] ++ flag "--name" (Name k))).

Definition Healthy (st : Stubs) (k : KindSpec) : M World unit :=
  wrap (Wrapf "cluster not healthy") (Exec st (clusterInfo (GetName k))).

(** The binaries [KindSpec.checkDependencies] looks for. *)
Definition kindBins (k : KindSpec) : list string :=
  "kind" :: (if bool_decide (GoogleArtifactRegistries k <> []) then ["gcloud"] else []).

(** The same spec with the recycle flag cleared. *)
Definition withoutRecycle (k : KindSpec) : KindSpec :=
  {| Name := Name k; Recycle := false; Version := Version k; Image := Image k;
     Retain := Retain k; Wait := Wait k; Kubecfg := Kubecfg k;
     GoogleArtifactRegistries := GoogleArtifactRegistries k;
     ContainerImages := ContainerImages k; KindConfigFile := KindConfigFile k;
     AdditionalManifests := AdditionalManifests k |}.

(** The commands of the loops of [Deploy], [loadContainerImages] and
    [setupGoogleArtifactRegistryAccess]. *)
Definition applyManifest (s : string) : list string := ["kubectl"; "apply"; "-f"; s].

Definition loadImage (k : KindSpec) (image : string * string) : list (list string) :=
  [ ["docker"; "pull"; fst image];
    ["docker"; "tag"; fst image; snd image];
    "kind" :: ["load"; "docker-image"; snd image] ++ flag "--name" (Name k) ].

Definition dockerLogin (token registry : string) : list string :=
  ["docker"; "login"; "-u"; "oauth2accesstoken"; "-p"; token; "https://" +:+ registry].

Definition getNodes (k : KindSpec) : list string :=
  "kind" :: ["get"; "nodes"] ++ flag "--name" (Name k).

Definition installOnNode (configPath field : string) : list (list string) :=
  [ ["docker"; "cp"; configPath; kubeletConfigPath (TrimSuffix field newline)];
    ["docker"; "exec"; TrimSuffix field newline; "systemctl"; "restart"; "kubelet.service"] ].

End Kind.

(** ** The ingress provider: [MetalLBSpec] *)
Module MetalLB.
Import Go Monad Net Pool.
Local Open Scope Z_scope.

(** The container runtime's answer, [dtypes.NetworkResource] with the
    fields [Deploy] reads: the name and [IPAM.Config[i].Subnet]. *)
Record IPAMConfig := { Subnet : string }.
Record NetworkResource := { Network_Name : string; IPAM_Config : list IPAMConfig }.

(** [var network dtypes.NetworkResource]. *)
Definition zeroNetwork : NetworkResource := {| Network_Name := EmptyString; IPAM_Config := [] |}.

(** [dclient.NetworkAPIClient], by what [NetworkList] returns. *)
Record DockerClient := { NetworkList : error + list NetworkResource }.

(** [corev1.Secret] and [corev1.ConfigMap]. *)
Record Secret := { Secret_Name : string; StringData : gmap string string }.
Record ConfigMap := { ConfigMap_Name : string; Data : gmap string string }.

(** The calls made on the cluster API, by namespace and object name. *)
Inductive APICall : Type :=
| SecretsGet (ns name : string)
| SecretsCreate (ns : string) (s : Secret)
| ConfigMapsGet (ns name : string)
| ConfigMapsCreate (ns : string) (cm : ConfigMap).

Definition isCreate (c : APICall) : bool :=
  match c with
  | SecretsCreate _ _ | ConfigMapsCreate _ _ => true
  | _ => false
  end.

(** Library functions and outside answers [Deploy] depends on:
    the runtime client [dclient.NewClientWithOpts] builds, the bytes
    [rand.Read] yields, [base64.StdEncoding.EncodeToString],
    [yaml.Marshal], [net.ParseCIDR] on a string that has a slash, and the
    text of an address that is not IPv4. *)
Record Env := {
  host : Host.Stubs;
  NewClientWithOpts : error + DockerClient;
  rand_Read : nat -> list Z;
  EncodeToString : list Z -> string;
  yaml_Marshal : metalLBConfig -> error + string;
  ParseCIDR_slashed : string -> error + IPNet;
  IP_String_other : list Z -> string
}.

(** [net.ParseCIDR]: a string without a slash is refused first. *)
Definition ParseCIDR (e : Env) (s : string) : error + IPNet :=
  if Host.has_byte (Ascii.ascii_of_nat 47) s then ParseCIDR_slashed e s
  else inl (Errorf ("invalid CIDR address: " +:+ s)).

(** The state [Deploy] works on: the host, the [dClient] field of the
    spec (nil until the first [Deploy]), the secrets and config-maps of the
    cluster behind [kClient], and the API calls made. *)
Record World := {
  hostWorld : Host.World;
  dClient : option DockerClient;
  secrets : gmap (string * string) Secret;
  configMaps : gmap (string * string) ConfigMap;
  apiCalls : list APICall
}.

Definition set_hostWorld (h : Host.World) (w : World) : World :=
  {| hostWorld := h; dClient := dClient w; secrets := secrets w;
     configMaps := configMaps w; apiCalls := apiCalls w |}.
Definition set_dClient (c : option DockerClient) (w : World) : World :=
  {| hostWorld := hostWorld w; dClient := c; secrets := secrets w;
     configMaps := configMaps w; apiCalls := apiCalls w |}.
Definition set_secrets (f : gmap (string * string) Secret -> gmap (string * string) Secret)
  (w : World) : World :=
  {| hostWorld := hostWorld w; dClient := dClient w; secrets := f (secrets w);
     configMaps := configMaps w; apiCalls := apiCalls w |}.
Definition set_configMaps
  (f : gmap (string * string) ConfigMap -> gmap (string * string) ConfigMap)
  (w : World) : World :=
  {| hostWorld := hostWorld w; dClient := dClient w; secrets := secrets w;
     configMaps := f (configMaps w); apiCalls := apiCalls w |}.
Definition log_api (c : APICall) (w : World) : World :=
  {| hostWorld := hostWorld w; dClient := dClient w; secrets := secrets w;
     configMaps := configMaps w; apiCalls := apiCalls w ++ [c] |}.

(** [execer.Exec] from this component: it acts on the host only.  The
    manifests applied here declare the namespace and the pods, no secret
    and no config-map. *)
Definition Exec (e : Env) (argv : list string) : M World unit :=
  fun w =>
    let '(r, h) := Host.Exec (host e) argv (hostWorld w) in
    (r, set_hostWorld h w).

Definition errNotFound (kind name : string) : error :=
  External (kind +:+ " " +:+ quote name +:+ " not found").
Definition errAlreadyExists (kind name : string) : error :=
  External (kind +:+ " " +:+ quote name +:+ " already exists").

(** [kClient.CoreV1().Secrets(ns).Get] and [.Create] on the cluster: [Get]
    fails when the object is absent, [Create] when it is present. *)
Definition Secrets_Get (ns name : string) : M World Secret :=
  fun w =>
    let w' := log_api (SecretsGet ns name) w in
    match secrets w !! (ns, name) with
    | Some s => (inr s, w')
    | None => (inl (errNotFound "secrets" name), w')
    end.

Definition Secrets_Create (ns : string) (s : Secret) : M World Secret :=
  fun w =>
    let w' := log_api (SecretsCreate ns s) w in
    match secrets w !! (ns, Secret_Name s) with
    | Some _ => (inl (errAlreadyExists "secrets" (Secret_Name s)), w')
    | None => (inr s, set_secrets (insert (ns, Secret_Name s) s) w')
    end.

Definition ConfigMaps_Get (ns name : string) : M World ConfigMap :=
  fun w =>
    let w' := log_api (ConfigMapsGet ns name) w in
    match configMaps w !! (ns, name) with
    | Some cm => (inr cm, w')
    | None => (inl (errNotFound "configmaps" name), w')
    end.

Definition ConfigMaps_Create (ns : string) (cm : ConfigMap) : M World ConfigMap :=
  fun w =>
    let w' := log_api (ConfigMapsCreate ns cm) w in
    match configMaps w !! (ns, ConfigMap_Name cm) with
    | Some _ => (inl (errAlreadyExists "configmaps" (ConfigMap_Name cm)), w')
    | None => (inr cm, set_configMaps (insert (ns, ConfigMap_Name cm) cm) w')
    end.

Record MetalLBSpec := { Version : string; IPCount : Z; ManifestDir : string }.

(** [for _, v := range nr { if v.Name == "kind" { network = v; break } }]. *)
Fixpoint findKind (nr : list NetworkResource) (network : NetworkResource) : NetworkResource :=
  match nr with
  | [] => network
  | v :: rest => if bool_decide (Network_Name v = "kind") then v else findKind rest network
  end.

(** The loop over [network.IPAM.Config]: the first subnet that parses to
    an IPv4 net, nil when there is none, the error of the first subnet
    that does not parse. *)
Fixpoint findIPv4 (e : Env) (cfgs : list IPAMConfig) : error + option IPNet :=
  match cfgs with
  | [] => inr None
  | ipRange :: rest =>
      match ParseCIDR e (Subnet ipRange) with
      | inl err => inl err
      | inr ipNet =>
          match To4 (IP ipNet) with
          | Some _ => inr (Some ipNet)
          | None => findIPv4 e rest
          end
      end
  end.

Definition errNoKindNet : error := Errorf "failed to find kind ipv4 docker net".

(** The first half of [Deploy]: the runtime client, the namespace, the
    secret, the pods. *)
Definition deployPods (e : Env) (m : MetalLBSpec) : M World unit :=
  dc <- gets dClient ;;
  match dc with
  | None => c <- lift (NewClientWithOpts e) ;; modify (set_dClient (Some c))
  | Some _ => ret tt
  end ;;
  Exec e ["kubectl"; "apply"; "-f"; Host.filepath_Join (ManifestDir m) "namespace.yaml"] ;;
  err <- catch (Secrets_Get "metallb-system" "memberlist") ;;
  match err with
  | Some _ =>
      let d := rand_Read e 16 in
      let s := {| Secret_Name := "memberlist";
                  StringData := {[ "secretkey" := EncodeToString e d ]} |} in
      Secrets_Create "metallb-system" s ;;
      ret tt
  | None => ret tt
  end ;;
  Exec e ["kubectl"; "apply"; "-f"; Host.filepath_Join (ManifestDir m) "metallb.yaml"].

(** The second half: the config-map with the address pool.  [m.dClient]
    was set by the first half; on a nil client the Go code cannot go on. *)
Definition deployConfig (e : Env) (m : MetalLBSpec) : M World unit :=
  err <- catch (ConfigMaps_Get "metallb-system" "config") ;;
  match err with
  | Some _ =>
      dc <- gets dClient ;;
      nr <- lift (match dc with
                  | Some c => NetworkList c
                  | None => inl (External "nil dClient")
                  end) ;;
      let network := findKind nr zeroNetwork in
      n <- lift (findIPv4 e (IPAM_Config network)) ;;
      match n with
      | None => fail errNoKindNet
      | Some n =>
          let config := makeConfig (IP_String_other e) n (IPCount m) in
          b <- lift (yaml_Marshal e config) ;;
          let cm := {| ConfigMap_Name := "config"; Data := {[ "config" := b ]} |} in
          ConfigMaps_Create "metallb-system" cm ;;
          ret tt
      end
  | None => ret tt
  end.

(** [MetalLBSpec.Deploy]. *)
Definition Deploy (e : Env) (m : MetalLBSpec) : M World unit :=
  deployPods e m ;; deployConfig e m.

(** The creation calls among the API calls. *)
Definition creations (w : World) : list APICall := filter (fun c => isCreate c = true) (apiCalls w).

(** The matching network has no IPv4 subnet entry: every entry parses, to
    a net that is not IPv4. *)
Definition noIPv4Subnet (e : Env) (network : NetworkResource) : Prop :=
  Forall (fun c => exists n, ParseCIDR e (Subnet c) = inr n /\ To4 (IP n) = None)
         (IPAM_Config network).

(** The two objects [Deploy] ensures, by namespace and name. *)
Definition memberlist : string * string := ("metallb-system", "memberlist").
Definition config : string * string := ("metallb-system", "config").

(** The secret and the config-map [Deploy] builds. *)
Definition memberlistSecret (e : Env) : Secret :=
  {| Secret_Name := "memberlist";
     StringData := {[ "secretkey" := EncodeToString e (rand_Read e 16) ]} |}.
Definition poolConfigMap (b : string) : ConfigMap :=
  {| ConfigMap_Name := "config"; Data := {[ "config" := b ]} |}.

(** From [w] to [w'] no object of the cluster but the secret memberlist
    and the config-map config has changed, and these two were not replaced
    or removed if they existed. *)
Definition keepsObjects (w w' : World) : Prop :=
  (forall key, key <> memberlist -> secrets w' !! key = secrets w !! key) /\
  (forall s, secrets w !! memberlist = Some s -> secrets w' !! memberlist = Some s) /\
  (forall key, key <> config -> configMaps w' !! key = configMaps w !! key) /\
  (forall cm, configMaps w !! config = Some cm -> configMaps w' !! config = Some cm).

End MetalLB.

(** ** The CNI provider and the controller: [MeshnetSpec], [IxiaTGSpec] *)
Module Meshnet.
Import Go Monad Host.

Record MeshnetSpec := { Image : string; ManifestDir : string }.

(** [MeshnetSpec.Deploy]. *)
Definition Deploy (st : Stubs) (m : MeshnetSpec) : M World unit :=
  Exec st ["kubectl"; "apply"; "-k"; ManifestDir m].

End Meshnet.

Module IxiaTG.
Import Go Monad Host.

Record IxiaTGImage := { Image_Name : string; Path : string; Tag : string }.
Record IxiaTGConfigMap := { Release : string; Images : list IxiaTGImage }.

(** [ConfigMap] is a pointer, nil when the spec has no structured config. *)
Record IxiaTGSpec := { ManifestDir : string; ConfigMap : option IxiaTGConfigMap }.

(** The answers [Deploy] gets from outside: the host, the stub [osStat],
    [json.MarshalIndent] with the prefix and indent of the call, the name
    of the file [os.CreateTemp] makes, and the error of [f.Write]. *)
Record Lib := {
  host : Stubs;
  osStat : string -> option error;
  MarshalIndent : IxiaTGConfigMap -> error + string;
  CreateTemp : error + string;
  Write : string -> string -> option error
}.

Definition ixiaTGConfigMapHeader : string :=
  "apiVersion: v1" +:+ newline +:+
  "kind: ConfigMap" +:+ newline +:+
  "metadata:" +:+ newline +:+
  "  name: ixiatg-release-config" +:+ newline +:+
  "  namespace: ixiatg-op-system" +:+ newline +:+
  "data:" +:+ newline +:+
  "  versions: |" +:+ newline +:+
  "    ".

(** [os.CreateTemp("", "ixiatg-configmap-*.yaml")]: a new, empty file. *)
Definition os_CreateTemp (l : Lib) : M World string :=
  f <- lift (CreateTemp l) ;;
  modify (set_files (insert f EmptyString)) ;;
  ret f.

(** [f.Write(b)] on the file just created. *)
Definition File_Write (l : Lib) (f b : string) : M World unit :=
  match Write l f b with
  | Some e => fail e
  | None => modify (set_files (insert f b))
  end.

(** [os.Remove(name)], its error dropped as a deferred call drops it. *)
Definition os_Remove (name : string) (w : World) : World := set_files (delete name) w.

(** [IxiaTGSpec.Deploy]. *)
Definition Deploy (l : Lib) (i : IxiaTGSpec) : M World unit :=
  Exec (host l) ["kubectl"; "apply"; "-f";
                 filepath_Join (ManifestDir i) "ixiatg-operator.yaml"] ;;
  match ConfigMap i with
  | None =>
      let path := filepath_Join (ManifestDir i) "ixia-configmap.yaml" in
      match osStat l path with
      | Some err => fail (Errorf ("ixia configmap not found: " +:+ Error ", " err))
      | None => Exec (host l) ["kubectl"; "apply"; "-f"; path]
      end
  | Some cm =>
      b <- lift (MarshalIndent l cm) ;;
      let b := ixiaTGConfigMapHeader +:+ b in
      f <- os_CreateTemp l ;;
      defer (os_Remove f) (
        File_Write l f b ;;
        Exec (host l) ["kubectl"; "apply"; "-f"; f])
  end.

End IxiaTG.

(** ** The orchestrator: [Deployment] *)
Module Orchestrator.
Import Go Monad Host.

(** The handles [clientcmd.BuildConfigFromFlags] and
    [kubernetes.NewForConfig] give are opaque to the orchestrator. *)
Definition restConfig : Type := string.
Definition kClient : Type := string.

Record Clientcmd := {
  BuildConfigFromFlags : string -> string -> error + restConfig;
  NewForConfig : restConfig -> error + kClient
}.

(** The components are interfaces.  [Deploy] calls every method at most
    once, so an implementation is given by the error each method returns
    when it is called (nil for success; a health wait that runs into its
    deadline returns its error like any other). *)
Record Cluster := {
  Cluster_Deploy : option error;
  Cluster_Delete : option error;
  Cluster_Healthy : option error;
  Cluster_GetName : string
}.

(** [Ingress], [CNI] and [Controller] have the same three methods;
    [SetKClient] returns nothing. *)
Record Component := {
  Component_Deploy : option error;
  Component_Healthy : option error
}.

Record Deployment := {
  Cluster_ : Cluster;
  Ingress : Component;
  CNI : Component;
  Controllers : list Component
}.

(** The method calls the orchestrator makes; a controller is named by its
    index in [Controllers]. *)
Inductive Call : Type :=
| ClusterDeploy | ClusterDelete | ClusterHealthy
| IngressSetKClient (c : kClient) | IngressDeploy | IngressHealthy
| CNIDeploy | CNISetKClient (c : kClient) | CNIHealthy
| ControllerDeploy (i : nat) | ControllerSetKClient (i : nat) (c : kClient)
| ControllerHealthy (i : nat).

(** A method call: it is appended to the trace and its error returned. *)
Definition call (c : Call) (r : option error) : M (list Call) unit :=
  fun tr => (match r with Some e => inl e | None => inr tt end, tr ++ [c]).

(** [Deployment.checkDependencies]. *)
Definition checkDependencies (st : Stubs) : option error :=
  errlist_Err
    (fold_left
       (fun errs bin =>
          match execLookPath st bin with
          | inl _ => errlist_Add errs (missingDependency bin)
          | inr _ => errs
          end)
       ["docker"; "kubectl"] []).

(** The loop over [d.Controllers], entered at index [i]. *)
Fixpoint deployControllers (c : kClient) (i : nat) (cs : list Component) : M (list Call) unit :=
  match cs with
  | [] => ret tt
  | ctrl :: rest =>
      call (ControllerDeploy i) (Component_Deploy ctrl) ;;
      call (ControllerSetKClient i c) None ;;
      call (ControllerHealthy i) (Component_Healthy ctrl) ;;
      deployControllers c (S i) rest
  end.

(** [Deployment.Deploy(ctx, kubecfg)].  Each health wait gets a context of
    its own with the timeout [healthTimeout]; the deferred [cancel] calls
    reach no component. *)
Definition Deploy (st : Stubs) (cc : Clientcmd) (d : Deployment) (kubecfg : string)
  : M (list Call) unit :=
  lift (match checkDependencies st with Some e => inl e | None => inr tt end) ;;
  call ClusterDeploy (Cluster_Deploy (Cluster_ d)) ;;
  rCfg <- lift (BuildConfigFromFlags cc EmptyString kubecfg) ;;
  c <- lift (NewForConfig cc rCfg) ;;
  call (IngressSetKClient c) None ;;
  call IngressDeploy (Component_Deploy (Ingress d)) ;;
  call IngressHealthy (Component_Healthy (Ingress d)) ;;
  call CNIDeploy (Component_Deploy (CNI d)) ;;
  call (CNISetKClient c) None ;;
  call CNIHealthy (Component_Healthy (CNI d)) ;;
  deployControllers c 0 (Controllers d).

(** [Deployment.Delete]. *)
Definition Delete (d : Deployment) : M (list Call) unit :=
  call ClusterDelete (Cluster_Delete (Cluster_ d)).

(** The stages in the order of the specification, each with the error its
    component returns: cluster, ingress and its health wait, CNI and its
    health wait, then the controllers in configured order. *)
Fixpoint controllerScript (c : kClient) (i : nat) (cs : list Component)
  : list (Call * option error) :=
  match cs with
  | [] => []
  | ctrl :: rest =>
      (ControllerDeploy i, Component_Deploy ctrl) ::
      (ControllerSetKClient i c, None) ::
      (ControllerHealthy i, Component_Healthy ctrl) ::
      controllerScript c (S i) rest
  end.

Definition script (d : Deployment) (c : kClient) : list (Call * option error) :=
  [ (ClusterDeploy, Cluster_Deploy (Cluster_ d));
    (IngressSetKClient c, None);
    (IngressDeploy, Component_Deploy (Ingress d));
    (IngressHealthy, Component_Healthy (Ingress d));
    (CNIDeploy, Component_Deploy (CNI d));
    (CNISetKClient c, None);
    (CNIHealthy, Component_Healthy (CNI d)) ] ++
  controllerScript c 0 (Controllers d).

(** The cluster-API handle built from the kubeconfig file. *)
Definition buildClient (cc : Clientcmd) (kubecfg : string) : error + kClient :=
  match BuildConfigFromFlags cc EmptyString kubecfg with
  | inl e => inl e
  | inr rCfg => NewForConfig cc rCfg
  end.

(** Running a list of calls in order, up to the first error. *)
Fixpoint run (steps : list (Call * option error)) : M (list Call) unit :=
  match steps with
  | [] => ret tt
  | (c, r) :: rest => call c r ;; run rest
  end.

(** A step that returned no error. *)
Definition succeeded (step : Call * option error) : Prop := snd step = None.

(** The ways [Deploy] ends: the dependency check fails and nothing is
    called; or a call of the script fails, after all the calls before it
    succeeded, and it is the last call made; or the client cannot be built
    after the cluster was deployed; or every call of the script succeeds. *)
Definition DeployOutcome (st : Stubs) (cc : Clientcmd) (d : Deployment) (kubecfg : string)
    (res : (error + unit) * list Call) : Prop :=
  (exists e, checkDependencies st = Some e /\ res = (inl e, [])) \/
  (checkDependencies st = None /\
   ((exists c pre s e post,
       script d c = pre ++ (s, Some e) :: post /\ Forall succeeded pre /\
       (pre <> [] -> buildClient cc kubecfg = inr c) /\
       res = (inl e, map fst pre ++ [s])) \/
    (exists e,
       Cluster_Deploy (Cluster_ d) = None /\ buildClient cc kubecfg = inl e /\
       res = (inl e, [ClusterDeploy])) \/
    (exists c,
       buildClient cc kubecfg = inr c /\ Forall succeeded (script d c) /\
       res = (inr tt, map fst (script d c))))).

(** The loop over [d.Controllers] of [Deployment.Healthy]. *)
Fixpoint healthyControllers (i : nat) (cs : list Component) : M (list Call) unit :=
  match cs with
  | [] => ret tt
  | ctrl :: rest =>
      call (ControllerHealthy i) (Component_Healthy ctrl) ;;
      healthyControllers (S i) rest
  end.

(** [Deployment.Healthy(ctx)].  As in [Deploy], every wait gets a context
    of its own with the timeout [healthTimeout]. *)
Definition Healthy (d : Deployment) : M (list Call) unit :=
  call ClusterHealthy (Cluster_Healthy (Cluster_ d)) ;;
  call IngressHealthy (Component_Healthy (Ingress d)) ;;
  call CNIHealthy (Component_Healthy (CNI d)) ;;
  healthyControllers 0 (Controllers d).

(** The health checks in the order [Healthy] makes them, each with the error
    its component returns. *)
Fixpoint controllerHealthScript (i : nat) (cs : list Component) : list (Call * option error) :=
  match cs with
  | [] => []
  | ctrl :: rest => (ControllerHealthy i, Component_Healthy ctrl) :: controllerHealthScript (S i) rest
  end.

Definition healthScript (d : Deployment) : list (Call * option error) :=
  [ (ClusterHealthy, Cluster_Healthy (Cluster_ d));
    (IngressHealthy, Component_Healthy (Ingress d));
    (CNIHealthy, Component_Healthy (CNI d)) ] ++
  controllerHealthScript 0 (Controllers d).

(** What the call [x], made after the calls [pre], shows about the client
    [c]: a [SetKClient] hands over [c]; the ingress is deployed and
    waited for, and the CNI provider and a controller are waited for, after
    they were handed [c]. *)
Definition handedOver (c : kClient) (pre : list Call) (x : Call) : Prop :=
  match x with
  | IngressSetKClient c' | CNISetKClient c' | ControllerSetKClient _ c' => c' = c
  | IngressDeploy | IngressHealthy => IngressSetKClient c ∈ pre
  | CNIHealthy => CNISetKClient c ∈ pre
  | ControllerHealthy i => ControllerSetKClient i c ∈ pre
  | _ => True
  end.

(** A call that only asks for health. *)
Definition isHealthCall (c : Call) : bool :=
  match c with
  | ClusterHealthy | IngressHealthy | CNIHealthy | ControllerHealthy _ => true
  | _ => false
  end.

End Orchestrator.

(** ** Hosts, clusters and specs to run the code on *)
Module Scenarios.

Section WatchScenarios.
Import K8s.
Local Open Scope Z_scope.

(** A deployment with no replica count, starting and then up; a daemon-set
    with one pod unavailable and then ready; the status object of an error
    event. *)
Definition deploymentStarting : Event :=
  {| Type_ := Added; Object_ := ObjDeployment
       {| Spec_Replicas := None; Status_Replicas := 1; Status_UpdatedReplicas := 1;
          Status_ReadyReplicas := 0; Status_AvailableReplicas := 0;
          Status_UnavailableReplicas := 1 |} |}.
Definition deploymentUp : Event :=
  {| Type_ := Modified; Object_ := ObjDeployment
       {| Spec_Replicas := None; Status_Replicas := 1; Status_UpdatedReplicas := 1;
          Status_ReadyReplicas := 1; Status_AvailableReplicas := 1;
          Status_UnavailableReplicas := 0 |} |}.
Definition daemonSetBusy : Event :=
  {| Type_ := Modified; Object_ := ObjDaemonSet
       {| Status_DesiredNumberScheduled := 2; Status_NumberReady := 1;
          Status_NumberUnavailable := 1 |} |}.
Definition daemonSetUp : Event :=
  {| Type_ := Modified; Object_ := ObjDaemonSet
       {| Status_DesiredNumberScheduled := 2; Status_NumberReady := 2;
          Status_NumberUnavailable := 0 |} |}.
Definition watchError : Event := {| Type_ := ErrorEvent; Object_ := ObjOther "*v1.Status" |}.

End WatchScenarios.

Section HostScenarios.
Import Go Monad Host Kind.
Local Open Scope Z_scope.

(** A host where no binary is on the path. *)
Definition bareHost : Stubs :=
  {| execLookPath := fun bin => inl (External ("exec: " +:+ bin +:+ ": not found"));
     execResult := fun _ _ => (None, EmptyString);
     MkdirTemp := inl (External "unused");
     Create := fun _ => None;
     Duration_String := fun _ => EmptyString |}.

(** A host where every binary is found and every command succeeds without
    output, and a fresh process state. *)
Definition quietHost : Stubs :=
  {| execLookPath := fun bin => inr ("/usr/bin/" +:+ bin);
     execResult := fun _ _ => (None, EmptyString);
     MkdirTemp := inr "/tmp/kne_kind_docker1";
     Create := fun _ => None;
     Duration_String := fun _ => "1m0s" |}.

Definition freshWorld : World :=
  {| env := {[ "DOCKER_CONFIG" := "/home/kne/.docker" ]};
     execStdout := StandardLoggerOut;
     execStderr := StandardLoggerOut;
     buffers := ∅;
     files := ∅;
     dirs := [];
     calls := [] |}.

(** Cluster specs: one to recycle, one with a private registry. *)
Definition recycledSpec : KindSpec :=
  {| Name := "kne"; Recycle := true; Version := EmptyString; Image := EmptyString;
     Retain := false; Wait := 0; Kubecfg := EmptyString;
     GoogleArtifactRegistries := []; ContainerImages := [];
     KindConfigFile := EmptyString; AdditionalManifests := [] |}.

Definition registrySpec : KindSpec :=
  {| Name := "kne"; Recycle := false; Version := EmptyString; Image := EmptyString;
     Retain := false; Wait := 0; Kubecfg := EmptyString;
     GoogleArtifactRegistries := ["us-west1-docker.pkg.dev"]; ContainerImages := [];
     KindConfigFile := EmptyString; AdditionalManifests := [] |}.

(** A host on which the cloud-auth tool fails (nobody is logged in) and
    every other command prints a line and succeeds. *)
Definition gcloudFails : Stubs :=
  {| execLookPath := fun bin => inr ("/usr/bin/" +:+ bin);
     execResult := fun _ argv =>
       if bool_decide (head argv = Some "gcloud")
       then (Some (External "exit status 1"), EmptyString)
       else (None, "ok" +:+ newline);
     MkdirTemp := inr "/tmp/kne_kind_docker1";
     Create := fun _ => None;
     Duration_String := fun _ => "1m0s" |}.

(** Hosts on which one command fails and the others succeed: the
    cluster-info query (there is no cluster yet), the creation of the
    cluster. *)
Definition noClusterHost : Stubs :=
  {| execLookPath := fun bin => inr ("/usr/bin/" +:+ bin);
     execResult := fun _ argv =>
       if bool_decide (take 2 argv = ["kubectl"; "cluster-info"])
       then (Some (External "exit status 1"), EmptyString)
       else (None, EmptyString);
     MkdirTemp := inr "/tmp/kne_kind_docker1";
     Create := fun _ => None;
     Duration_String := fun _ => "1m0s" |}.

Definition createFailsHost : Stubs :=
  {| execLookPath := fun bin => inr ("/usr/bin/" +:+ bin);
     execResult := fun _ argv =>
       if bool_decide (take 2 argv = ["kind"; "create"])
       then (Some (External "exit status 1"), EmptyString)
       else (None, EmptyString);
     MkdirTemp := inr "/tmp/kne_kind_docker1";
     Create := fun _ => None;
     Duration_String := fun _ => "1m0s" |}.

(** A host on which the token command prints a token and the node query
    prints two nodes. *)
Definition cloudHost : Stubs :=
  {| execLookPath := fun bin => inr ("/usr/bin/" +:+ bin);
     execResult := fun _ argv =>
       if bool_decide (head argv = Some "gcloud") then (None, "ya29.token")
       else if bool_decide (take 3 argv = ["kind"; "get"; "nodes"])
            then (None, "kne-control-plane kne-worker" +:+ newline)
            else (None, EmptyString);
     MkdirTemp := inr "/tmp/kne_kind_docker1";
     Create := fun _ => None;
     Duration_String := fun _ => "1m0s" |}.

(** A spec with two manifests and two images to load. *)
Definition fullSpec : KindSpec :=
  {| Name := "kne"; Recycle := false; Version := EmptyString;
     Image := "kindest/node:v1.22.1"; Retain := true; Wait := 60000000000;
     Kubecfg := EmptyString; GoogleArtifactRegistries := [];
     ContainerImages := [("us-west1-docker.pkg.dev/kne/ceos:latest", "ceos:latest");
                         ("ghcr.io/srl-labs/srlinux:latest", "srlinux:latest")];
     KindConfigFile := EmptyString;
     AdditionalManifests := ["/manifests/a.yaml"; "/manifests/b.yaml"] |}.

End HostScenarios.

Section OrchestratorScenarios.
Import Go Orchestrator.

(** Mock components of the orchestrator that succeed. *)
Definition clientBuilds : Clientcmd :=
  {| BuildConfigFromFlags := fun _ kubecfg => inr kubecfg;
     NewForConfig := fun rCfg => inr ("client of " +:+ rCfg) |}.

Definition works : Component := {| Component_Deploy := None; Component_Healthy := None |}.

Definition upCluster : Cluster :=
  {| Cluster_Deploy := None; Cluster_Delete := None; Cluster_Healthy := None;
     Cluster_GetName := "kne" |}.

End OrchestratorScenarios.

Section IngressScenarios.
Import Go Net Pool MetalLB.
Local Open Scope Z_scope.

(** A cluster with nothing in it, and the answers of a working host:
    the runtime reports the networks [nets]. *)
Definition emptyCluster : World :=
  {| hostWorld := freshWorld; dClient := None; secrets := ∅; configMaps := ∅; apiCalls := [] |}.

Definition lbSpec : MetalLBSpec :=
  {| Version := "v0.9.3"; IPCount := 10; ManifestDir := "/manifests/metallb" |}.

Definition v6Subnet : IPNet :=
  {| IP := [252; 0; 248; 83; 12; 205; 231; 147; 0; 0; 0; 0; 0; 0; 0; 0];
     Mask := [255; 255; 255; 255; 255; 255; 255; 255; 0; 0; 0; 0; 0; 0; 0; 0] |}.

(** A rendering of the pool document, for [yaml.Marshal]. *)
Definition yamlPools (cfg : metalLBConfig) : string :=
  "address-pools:" +:+ Host.newline +:+
  foldr (fun p rest =>
           "- name: " +:+ Name p +:+ Host.newline +:+
           "  protocol: " +:+ Protocol p +:+ Host.newline +:+
           "  addresses:" +:+ Host.newline +:+
           foldr (fun a rest' => "  - " +:+ a +:+ Host.newline +:+ rest') rest (Addresses p))
        EmptyString (AddressPools cfg).

Definition dockerReports (nets : list NetworkResource) : Env :=
  {| host := quietHost;
     NewClientWithOpts := inr {| NetworkList := inr nets |};
     rand_Read := fun n => replicate n 7;
     EncodeToString := fun _ => "BwcHBwcHBwcHBwcHBwcHBw==";
     yaml_Marshal := fun cfg => inr (yamlPools cfg);
     ParseCIDR_slashed := fun s =>
       if bool_decide (s = "172.18.0.0/16") then inr kind_subnet
       else if bool_decide (s = "fc00:f853:ccd:e793::/64") then inr v6Subnet
       else inl (Errorf ("invalid CIDR address: " +:+ s));
     IP_String_other := fun _ => EmptyString |}.

(** Container networks: the default bridge, the kind network, one with
    only an IPv6 subnet, one with an entry that is no CIDR block. *)
Definition bridgeNetwork : NetworkResource :=
  {| Network_Name := "bridge"; IPAM_Config := [ {| Subnet := "172.17.0.0/16" |} ] |}.
Definition kindNetwork : NetworkResource :=
  {| Network_Name := "kind";
     IPAM_Config := [ {| Subnet := "fc00:f853:ccd:e793::/64" |}; {| Subnet := "172.18.0.0/16" |} ] |}.
Definition kindNetworkV6 : NetworkResource :=
  {| Network_Name := "kind"; IPAM_Config := [ {| Subnet := "fc00:f853:ccd:e793::/64" |} ] |}.
Definition kindNetworkMalformed : NetworkResource :=
  {| Network_Name := "kind"; IPAM_Config := [ {| Subnet := "bogus" |} ] |}.

End IngressScenarios.

Section ControllerScenarios.
Import Go Host IxiaTG.

(** A working host for the controller, on which the config-map manifest
    is not found, and the two forms of the spec: with the manifest file,
    with the structured config. *)
Definition ixiaLib : Lib :=
  {| host := quietHost;
     osStat := fun path => Some (External ("stat " +:+ path +:+ ": no such file or directory"));
     MarshalIndent := fun cm => inr ("{ release: " +:+ Release cm +:+ " }");
     CreateTemp := inr "/tmp/ixiatg-configmap-1.yaml";
     Write := fun _ _ => None |}.

Definition ixiaManifestSpec : IxiaTGSpec :=
  {| ManifestDir := "/manifests/ixiatg"; ConfigMap := None |}.

Definition ixiaInlineSpec : IxiaTGSpec :=
  {| ManifestDir := "/manifests/ixiatg";
     ConfigMap := Some {| Release := "0.0.1-9999";
                          Images := [ {| Image_Name := "controller";
                                         Path := "ghcr.io/open-traffic-generator/ixia-c-controller";
                                         Tag := "0.0.1-2994" |} ] |} |}.

End ControllerScenarios.

End Scenarios.

(* ================================================================== *)
(** * Part II: the properties *)
(* ================================================================== *)

Section PoolFacts.
Import Net Pool.
Local Open Scope Z_scope.

Lemma be_val_app (l : list Z) (b : Z) : be_val (l ++ [b]) = be_val l * 256 + b.
Proof. unfold be_val. by rewrite fold_left_app. Qed.

Lemma be_val_range (l : list Z) :
  Forall is_byte l -> 0 <= be_val l < 256 ^ Z.of_nat (length l).
Proof.
  induction l as [|b l IH] using rev_ind; intros Hl.
  - cbn. lia.
  - rewrite Forall_app, Forall_singleton in Hl. destruct Hl as [Hl Hb].
    specialize (IH Hl). rewrite be_val_app, length_app. cbn [length].
    replace (Z.of_nat (length l + 1)) with (Z.of_nat (length l) + 1) by lia.
    rewrite Z.pow_add_r, Z.pow_1_r by lia. unfold is_byte in Hb. lia.
Qed.

(** The carry loop only writes below its entry index. *)
Lemma inc_carry_app (n : nat) : forall pre suf : list Z,
  (n <= length pre)%nat -> inc_carry n (pre ++ suf) = inc_carry n pre ++ suf.
Proof.
  induction n as [|j IH]; intros pre suf Hn; [done|].
  cbn [inc_carry].
  rewrite insert_app_l, !lookup_total_app_l by (rewrite ?length_insert; lia).
  destruct (0 <? _); [done|].
  apply IH. rewrite length_insert. lia.
Qed.

(** One pass of the carry loop over a slice that ends in [b]. *)
Lemma inc_carry_snoc (pre : list Z) (b : Z) :
  inc_carry (length (pre ++ [b])) (pre ++ [b]) =
  if 0 <? incr_byte b then pre ++ [incr_byte b]
  else inc_carry (length pre) pre ++ [incr_byte b].
Proof.
  rewrite length_app. cbn [length]. rewrite Nat.add_1_r. cbn [inc_carry].
  rewrite list_lookup_total_middle by done.
  replace (<[length pre:=incr_byte b]> (pre ++ [b])) with (pre ++ [incr_byte b]).
  2:{ rewrite insert_app_r_alt, Nat.sub_diag by lia. done. }
  rewrite list_lookup_total_middle by done.
  destruct (0 <? incr_byte b); [done|].
  by apply inc_carry_app.
Qed.

Lemma incr_byte_is_byte (b : Z) : is_byte (incr_byte b).
Proof. unfold is_byte, incr_byte. apply Z.mod_pos_bound. lia. Qed.

(** One pass adds one to the big-endian value, modulo [256 ^ len]. *)
Lemma inc_carry_spec (l : list Z) :
  Forall is_byte l ->
  let l' := inc_carry (length l) l in
  length l' = length l /\ Forall is_byte l' /\
  be_val l' = (be_val l + 1) mod 256 ^ Z.of_nat (length l).
Proof.
  induction l as [|b l IH] using rev_ind; intros Hl; cbn zeta.
  - cbn. done.
  - rewrite Forall_app, Forall_singleton in Hl. destruct Hl as [Hl Hb].
    destruct (IH Hl) as (Hlen & Hbytes & Hval). clear IH.
    pose proof (be_val_range l Hl) as Hr.
    rewrite inc_carry_snoc.
    assert (Hpow : 256 ^ Z.of_nat (length (l ++ [b])) = 256 ^ Z.of_nat (length l) * 256).
    { rewrite length_app. cbn [length].
      replace (Z.of_nat (length l + 1)) with (Z.of_nat (length l) + 1) by lia.
      rewrite Z.pow_add_r, Z.pow_1_r by lia. done. }
    rewrite Hpow. unfold is_byte in Hb.
    destruct (0 <? incr_byte b) eqn:Hc.
    + apply Z.ltb_lt in Hc.
      assert (Hib : incr_byte b = b + 1).
      { unfold incr_byte in *. destruct (decide (b = 255)) as [->|]; [done|].
        apply Z.mod_small. lia. }
      pose proof (incr_byte_is_byte b) as Hi. unfold is_byte in Hi.
      rewrite Hib in *. split; [by rewrite !length_app|]. split.
      * rewrite Forall_app, Forall_singleton. split; [done|]. unfold is_byte. lia.
      * rewrite !be_val_app. symmetry. rewrite <- Z.add_assoc. apply Z.mod_small. lia.
    + apply Z.ltb_ge in Hc. pose proof (incr_byte_is_byte b) as Hi. unfold is_byte in Hi.
      assert (Hz : incr_byte b = 0) by lia. rewrite Hz.
      assert (Hb255 : b = 255).
      { unfold incr_byte in Hz. destruct (decide (b = 255)); [done|].
        rewrite Z.mod_small in Hz; lia. }
      subst b. split; [by rewrite !length_app, Hlen|]. split.
      * rewrite Forall_app, Forall_singleton. split; [done|]. unfold is_byte. lia.
      * rewrite !be_val_app, Hval.
        replace (be_val l * 256 + 255 + 1) with ((be_val l + 1) * 256) by lia.
        rewrite Z.mul_mod_distr_r by lia. lia.
Qed.

(** The whole loop: [cnt] passes when [cnt] is positive, none otherwise. *)
Lemma inc_loop_spec (fuel : nat) : forall (ip : list Z) (cnt : Z),
  Forall is_byte ip -> (Z.to_nat cnt <= fuel)%nat ->
  let r := inc_loop fuel ip cnt in
  length r = length ip /\ Forall is_byte r /\
  be_val r = (be_val ip + Z.max 0 cnt) mod 256 ^ Z.of_nat (length ip).
Proof.
  induction fuel as [|fuel IH]; intros ip cnt Hip Hfuel; cbn zeta.
  - assert (cnt <= 0) by lia. cbn [inc_loop].
    replace (0 <? cnt) with false by (symmetry; apply Z.ltb_ge; lia).
    pose proof (be_val_range ip Hip). rewrite Z.max_l, Z.add_0_r, Z.mod_small by lia. done.
  - cbn [inc_loop]. destruct (0 <? cnt) eqn:Hc.
    + apply Z.ltb_lt in Hc.
      destruct (inc_carry_spec ip Hip) as (Hlen & Hbytes & Hval).
      destruct (IH (inc_carry (length ip) ip) (cnt - 1) Hbytes ltac:(lia)) as (Hlen' & Hbytes' & Hval').
      split; [congruence|]. split; [done|].
      rewrite Hval', Hval, Hlen, Z.add_mod_idemp_l by lia.
      f_equal. lia.
    + apply Z.ltb_ge in Hc. pose proof (be_val_range ip Hip).
      rewrite Z.max_l, Z.add_0_r, Z.mod_small by lia. done.
Qed.

Lemma inc_spec (ip : list Z) (cnt : Z) :
  Forall is_byte ip ->
  length (inc ip cnt) = length ip /\ Forall is_byte (inc ip cnt) /\
  be_val (inc ip cnt) = (be_val ip + Z.max 0 cnt) mod 256 ^ Z.of_nat (length ip).
Proof. intros Hip. by apply (inc_loop_spec (Z.to_nat cnt) ip cnt). Qed.

(** A non-positive count leaves the slice as it is. *)
Lemma inc_nonpositive (ip : list Z) (cnt : Z) : cnt <= 0 -> inc ip cnt = ip.
Proof.
  intros Hc. unfold inc. destruct (Z.to_nat cnt); cbn [inc_loop];
    by replace (0 <? cnt) with false by (symmetry; apply Z.ltb_ge; lia).
Qed.

(** Four octets are determined by their big-endian value. *)
Lemma ip_of_val_be_val (l : list Z) :
  length l = 4%nat -> Forall is_byte l -> ip_of_val (be_val l) = l.
Proof.
  intros Hlen Hl.
  destruct l as [|a [|b [|c [|d [|? ?]]]]]; try discriminate. clear Hlen.
  repeat (apply Forall_cons in Hl as [? Hl]). unfold is_byte in *.
  unfold ip_of_val, be_val. cbn [fold_left].
  change (2 ^ 24) with 16777216. change (2 ^ 16) with 65536. change (2 ^ 8) with 256.
  repeat f_equal; Z.to_euclidean_division_equations; lia.
Qed.

Lemma be_val_ip_of_val (v : Z) : 0 <= v < 2 ^ 32 -> be_val (ip_of_val v) = v.
Proof.
  intros Hv. unfold ip_of_val, be_val. cbn [fold_left].
  change (2 ^ 32) with 4294967296 in Hv.
  change (2 ^ 24) with 16777216. change (2 ^ 16) with 65536. change (2 ^ 8) with 256.
  Z.to_euclidean_division_equations. lia.
Qed.

Lemma ip_of_val_wf (v : Z) : length (ip_of_val v) = 4%nat /\ Forall is_byte (ip_of_val v).
Proof.
  split; [done|]. unfold ip_of_val, is_byte.
  repeat (apply Forall_cons; split; [apply Z.mod_pos_bound; lia|]). apply Forall_nil_2.
Qed.

(** On an IPv4 address [inc] is addition on the value: [ip_add]. *)
Lemma inc_ip_add (ip : list Z) (cnt : Z) :
  length ip = 4%nat -> Forall is_byte ip -> inc ip cnt = ip_add ip (Z.max 0 cnt).
Proof.
  intros Hlen Hip. destruct (inc_spec ip cnt Hip) as (Hl & Hb & Hv).
  rewrite Hlen in Hl.
  rewrite <- (ip_of_val_be_val (inc ip cnt) Hl Hb).
  unfold ip_add. rewrite Hv, Hlen. reflexivity.
Qed.

Lemma ip_add_ip_add (ip : list Z) (j k : Z) : ip_add (ip_add ip j) k = ip_add ip (j + k).
Proof.
  unfold ip_add. rewrite (be_val_ip_of_val ((be_val ip + j) mod 2 ^ 32))
    by (apply Z.mod_pos_bound; lia).
  by rewrite Z.add_mod_idemp_l, Z.add_assoc by lia.
Qed.

Lemma IP_String_dotted (other : list Z -> string) (ip : list Z) :
  length ip = 4%nat -> IP_String other ip = dotted ip.
Proof.
  intros Hlen. destruct ip as [|a [|b [|c [|d [|? ?]]]]]; try discriminate. done.
Qed.

(** A single increment, seen from the last octet: below 255 only that octet
    moves; at 255 it wraps to zero and the carry goes to the octets above. *)
Lemma inc_one_snoc (pre : list Z) (b : Z) :
  is_byte b ->
  inc (pre ++ [b]) 1 = if b <? 255 then pre ++ [b + 1] else inc pre 1 ++ [0].
Proof.
  intros Hb. unfold is_byte in Hb. unfold inc. change (Z.to_nat 1) with 1%nat.
  cbn [inc_loop Z.ltb Z.compare]. change (1 - 1) with 0. cbn [Z.ltb Z.compare].
  rewrite inc_carry_snoc. unfold incr_byte.
  destruct (b <? 255) eqn:Hlt.
  - apply Z.ltb_lt in Hlt. rewrite Z.mod_small by lia.
    by replace (0 <? b + 1) with true by (symmetry; apply Z.ltb_lt; lia).
  - apply Z.ltb_ge in Hlt. by replace b with 255 by lia.
Qed.

(** C3.  For every IPv4 address [A], a sequence of four bytes, and every
    non-negative count [N], [inc A N] is again an IPv4 address, and its
    big-endian value is the value of [A] plus [N], modulo [2^32].  The carry
    goes from the least significant octet upward: one increment of an
    address that ends in [b] bumps [b] when [b < 255], and otherwise zeroes
    it and increments the octets above. *)
Theorem inc_adds_modulo_2_32 (A : list Z) (N : Z) :
  length A = 4%nat -> Forall is_byte A -> 0 <= N ->
  (length (inc A N) = 4%nat /\ Forall is_byte (inc A N)) /\
  be_val (inc A N) = (be_val A + N) mod 2 ^ 32 /\
  (forall pre b, A = pre ++ [b] ->
     inc A 1 = if b <? 255 then pre ++ [b + 1] else inc pre 1 ++ [0]).
Proof.
  intros Hlen HA HN. destruct (inc_spec A N HA) as (Hl & Hb & Hv).
  split; [split; [congruence|done]|]. split.
  - rewrite Hv, Hlen, Z.max_r by lia. done.
  - intros pre b ->. apply inc_one_snoc.
    rewrite Forall_app, Forall_singleton in HA. tauto.
Qed.

Lemma inc_adds_modulo_2_32_witness :
  (length (inc [10; 0; 255; 250] 10) = 4%nat /\ Forall is_byte (inc [10; 0; 255; 250] 10)) /\
  be_val (inc [10; 0; 255; 250] 10) = (be_val [10; 0; 255; 250] + 10) mod 2 ^ 32 /\
  (forall pre b, [10; 0; 255; 250] = pre ++ [b] ->
     inc [10; 0; 255; 250] 1 = if b <? 255 then pre ++ [b + 1] else inc pre 1 ++ [0]).
Proof.
  apply (inc_adds_modulo_2_32 [10; 0; 255; 250] 10).
  - reflexivity.
  - repeat (apply Forall_cons; split; [unfold is_byte; lia|]). apply Forall_nil_2.
  - lia.
Defined.

(** C4, as amended.  For every IPv4 subnet with base address [B] and every
    pool size [count], [makeConfig] gives exactly one pool, named default,
    with protocol layer2 and one address range, from [B + 50] to
    [B + 50 + max 0 count] in dotted decimal: [B + 50 + count] for every
    non-negative [count], and [B + 50] itself for a negative one. *)
Theorem makeConfig_range (other : list Z -> string) (n : IPNet) (count : Z) :
  length (IP n) = 4%nat -> Forall is_byte (IP n) ->
  AddressPools (makeConfig other n count) =
    [ {| Name := "default";
         Protocol := "layer2";
         Addresses := [dotted (ip_add (IP n) 50) +:+ " - " +:+
                       dotted (ip_add (IP n) (50 + Z.max 0 count))] |} ].
Proof.
  intros Hlen Hn. unfold makeConfig. cbn [AddressPools].
  destruct (inc_spec (IP n) 50 Hn) as (Hl & Hb & _).
  rewrite Hlen in Hl.
  rewrite (inc_ip_add (inc (IP n) 50) count Hl Hb).
  rewrite (inc_ip_add (IP n) 50 Hlen Hn), ip_add_ip_add.
  change (Z.max 0 50) with 50.
  rewrite !IP_String_dotted by apply ip_of_val_wf. reflexivity.
Qed.

(** The specification's example: 172.18.0.0/16 with ten addresses. *)
Lemma makeConfig_range_witness :
  AddressPools (makeConfig (fun _ => EmptyString) kind_subnet 10) =
    [ {| Name := "default";
         Protocol := "layer2";
         Addresses := ["172.18.0.50 - 172.18.0.60"] |} ].
Proof.
  apply (makeConfig_range (fun _ => EmptyString) kind_subnet 10).
  - reflexivity.
  - repeat (apply Forall_cons; split; [unfold is_byte; cbn; lia|]). apply Forall_nil_2.
Defined.

(** C4 as it was stated fails at a negative pool size: [inc] does not run
    its loop, the range ends where it starts, and that is not the address
    [B + 50 + count]. *)
Lemma makeConfig_negative_count :
  AddressPools (makeConfig (fun _ => EmptyString) kind_subnet (-1)) =
    [ {| Name := "default";
         Protocol := "layer2";
         Addresses := ["172.18.0.50 - 172.18.0.50"] |} ] /\
  dotted (ip_add (IP kind_subnet) (50 + -1)) = "172.18.0.49" /\
  Addresses <$> AddressPools (makeConfig (fun _ => EmptyString) kind_subnet (-1)) <>
    [[dotted (ip_add (IP kind_subnet) 50) +:+ " - " +:+
      dotted (ip_add (IP kind_subnet) (50 + -1))]].
Proof. split; [|split]; [vm_compute; reflexivity ..|]. vm_compute. discriminate. Qed.

End PoolFacts.

Section HealthFacts.
Import Go K8s Health Scenarios.
Local Open Scope Z_scope.

Lemma deploymentReady_iff (d : Deployment) :
  deploymentReady d = true <->
  Status_AvailableReplicas d = desiredReplicas d /\
  Status_ReadyReplicas d = desiredReplicas d /\
  Status_Replicas d = desiredReplicas d /\
  Status_UpdatedReplicas d = desiredReplicas d /\
  Status_UnavailableReplicas d = 0.
Proof. unfold deploymentReady. cbn zeta. rewrite !andb_true_iff, !Z.eqb_eq. tauto. Qed.

Lemma daemonSetReady_iff (d : DaemonSet) :
  daemonSetReady d = true <->
  Status_NumberReady d = Status_DesiredNumberScheduled d /\ Status_NumberUnavailable d = 0.
Proof. unfold daemonSetReady. by rewrite andb_true_iff, !Z.eqb_eq. Qed.

(** Pending turns are skipped by the loop. *)
Lemma deploymentHealthy_loop_pending (pre rest : list Select) :
  Forall deploymentPending pre ->
  deploymentHealthy_loop (pre ++ rest) = deploymentHealthy_loop rest.
Proof.
  induction 1 as [|t pre (e & d & -> & Hobj & Hready) _ IH]; [done|].
  cbn. by rewrite Hobj, Hready.
Qed.

Lemma MeshnetSpec_Healthy_loop_pending (pre rest : list Select) :
  Forall daemonSetPending pre ->
  MeshnetSpec_Healthy_loop (pre ++ rest) = MeshnetSpec_Healthy_loop rest.
Proof.
  induction 1 as [|t pre (e & d & -> & Hobj & Hready) _ IH]; [done|].
  cbn. by rewrite Hobj, Hready.
Qed.

(** Whatever the loop returns, it returns at the first turn that is not
    pending. *)
Lemma deploymentHealthy_loop_returns (turns : list Select) (r : option error) :
  deploymentHealthy_loop turns = Returns r ->
  exists pre t rest, turns = pre ++ t :: rest /\ Forall deploymentPending pre /\
    ~ deploymentPending t /\ deploymentHealthy_loop [t] = Returns r.
Proof.
  induction turns as [|t turns IH]; [done|]. intros Hret.
  destruct (deploymentHealthy_loop [t]) as [r'|] eqn:Ht.
  - exists [], t, turns. split; [done|]. split; [constructor|]. split.
    + intros (e & d & -> & Hobj & Hready). cbn in Ht. by rewrite Hobj, Hready in Ht.
    + destruct t as [|e|]; cbn in Ht, Hret |- *; try congruence.
      destruct (Object_ e) as [d| |]; try congruence.
      destruct (deploymentReady d); congruence.
  - assert (Hp : deploymentPending t).
    { destruct t as [|e|]; cbn in Ht; try discriminate.
      destruct (Object_ e) as [d| |] eqn:Hobj; try discriminate.
      destruct (deploymentReady d) eqn:Hready; try discriminate. by exists e, d. }
    change (t :: turns) with ([t] ++ turns) in Hret.
    rewrite (deploymentHealthy_loop_pending [t] turns) in Hret by (by constructor).
    destruct (IH Hret) as (pre & t' & rest & -> & Hpre & Hnp & Ht').
    exists (t :: pre), t', rest. split; [done|]. split; [by constructor|]. done.
Qed.

Lemma MeshnetSpec_Healthy_loop_returns (turns : list Select) (r : option error) :
  MeshnetSpec_Healthy_loop turns = Returns r ->
  exists pre t rest, turns = pre ++ t :: rest /\ Forall daemonSetPending pre /\
    ~ daemonSetPending t /\ MeshnetSpec_Healthy_loop [t] = Returns r.
Proof.
  induction turns as [|t turns IH]; [done|]. intros Hret.
  destruct (MeshnetSpec_Healthy_loop [t]) as [r'|] eqn:Ht.
  - exists [], t, turns. split; [done|]. split; [constructor|]. split.
    + intros (e & d & -> & Hobj & Hready). cbn in Ht. by rewrite Hobj, Hready in Ht.
    + destruct t as [|e|]; cbn in Ht, Hret |- *; try congruence.
      destruct (Object_ e) as [|d|]; try congruence.
      destruct (daemonSetReady d); congruence.
  - assert (Hp : daemonSetPending t).
    { destruct t as [|e|]; cbn in Ht; try discriminate.
      destruct (Object_ e) as [|d|] eqn:Hobj; try discriminate.
      destruct (daemonSetReady d) eqn:Hready; try discriminate. by exists e, d. }
    change (t :: turns) with ([t] ++ turns) in Hret.
    rewrite (MeshnetSpec_Healthy_loop_pending [t] turns) in Hret by (by constructor).
    destruct (IH Hret) as (pre & t' & rest & -> & Hpre & Hnp & Ht').
    exists (t :: pre), t', rest. split; [done|]. split; [by constructor|]. done.
Qed.

(** C1.  The generic deployment health watch.  An event is satisfying when
    AvailableReplicas, ReadyReplicas, Replicas and UpdatedReplicas all equal
    the desired replica count (the spec'd replicas, 1 when unspecified) and
    UnavailableReplicas is zero.  After any run of events that are not
    satisfying the watch is still waiting, and the next turn decides: a
    satisfying event returns success, a cancelled context the cancellation
    failure, a closed channel the stream-closed failure, an object that is
    not a deployment the type-mismatch failure.  Success is returned on no
    other sequence of turns, and the three failures are distinct. *)
Theorem deploymentHealthy_first_ready_event :
  (forall d, deploymentReady d = true <->
     Status_AvailableReplicas d = desiredReplicas d /\
     Status_ReadyReplicas d = desiredReplicas d /\
     Status_Replicas d = desiredReplicas d /\
     Status_UpdatedReplicas d = desiredReplicas d /\
     Status_UnavailableReplicas d = 0) /\
  (forall d, desiredReplicas d = default 1 (Spec_Replicas d)) /\
  (forall pre rest, Forall deploymentPending pre ->
     deploymentHealthy (inr pre) = Blocked /\
     (forall e d, Object_ e = ObjDeployment d -> deploymentReady d = true ->
        deploymentHealthy (inr (pre ++ Recv e :: rest)) = Returns None) /\
     deploymentHealthy (inr (pre ++ CtxDone :: rest)) = Returns (Some errCanceled) /\
     deploymentHealthy (inr (pre ++ ChanClosed :: rest)) = Returns (Some errClosed) /\
     (forall e, (forall d, Object_ e <> ObjDeployment d) ->
        deploymentHealthy (inr (pre ++ Recv e :: rest)) = Returns (Some errInvalidDeployment))) /\
  (forall turns, deploymentHealthy (inr turns) = Returns None ->
     exists pre e d rest, turns = pre ++ Recv e :: rest /\ Forall deploymentPending pre /\
       Object_ e = ObjDeployment d /\ deploymentReady d = true) /\
  (errCanceled <> errClosed /\ errCanceled <> errInvalidDeployment /\
   errClosed <> errInvalidDeployment).
Proof.
  split; [exact deploymentReady_iff|]. split; [by intros [[r|] ? ? ? ? ?]|].
  split; [|split].
  - intros pre rest Hpre. cbn [deploymentHealthy]. repeat split.
    + rewrite <- (app_nil_r pre). by rewrite deploymentHealthy_loop_pending.
    + intros e d Hobj Hready. rewrite deploymentHealthy_loop_pending by done.
      cbn. by rewrite Hobj, Hready.
    + by rewrite deploymentHealthy_loop_pending.
    + by rewrite deploymentHealthy_loop_pending.
    + intros e Hobj. rewrite deploymentHealthy_loop_pending by done.
      cbn. destruct (Object_ e) as [d| |]; [by destruct (Hobj d)|done..].
  - intros turns Hret. cbn [deploymentHealthy] in Hret.
    destruct (deploymentHealthy_loop_returns turns None Hret) as (pre & t & rest & -> & Hpre & _ & Ht).
    destruct t as [|e|]; cbn in Ht; try discriminate.
    destruct (Object_ e) as [d| |] eqn:Hobj; try discriminate.
    destruct (deploymentReady d) eqn:Hready; try discriminate.
    by exists pre, e, d, rest.
  - repeat split; discriminate.
Qed.

(** C6.  The Meshnet health check.  A daemon-set event is satisfying when
    NumberReady equals DesiredNumberScheduled and NumberUnavailable is zero.
    After any run of daemon-set events that are not satisfying the check is
    still waiting, and the next turn decides: a satisfying event returns
    success, a cancelled context one failure, a closed channel another, an
    object that is not a daemon-set the type-mismatch failure; these are
    the only ways to success, and the failures are distinct.  In particular
    an event with NumberUnavailable = 1 does not end the watch, and a
    satisfying event after it does. *)
Theorem MeshnetSpec_Healthy_first_ready_event :
  (forall d, daemonSetReady d = true <->
     Status_NumberReady d = Status_DesiredNumberScheduled d /\
     Status_NumberUnavailable d = 0) /\
  (forall pre rest, Forall daemonSetPending pre ->
     MeshnetSpec_Healthy (inr pre) = Blocked /\
     (forall e d, Object_ e = ObjDaemonSet d -> daemonSetReady d = true ->
        MeshnetSpec_Healthy (inr (pre ++ Recv e :: rest)) = Returns None) /\
     MeshnetSpec_Healthy (inr (pre ++ CtxDone :: rest)) = Returns (Some errCanceled) /\
     MeshnetSpec_Healthy (inr (pre ++ ChanClosed :: rest)) = Returns (Some errClosed) /\
     (forall e, (forall d, Object_ e <> ObjDaemonSet d) ->
        MeshnetSpec_Healthy (inr (pre ++ Recv e :: rest)) = Returns (Some errInvalidDaemonSet))) /\
  (forall turns, MeshnetSpec_Healthy (inr turns) = Returns None ->
     exists pre e d rest, turns = pre ++ Recv e :: rest /\ Forall daemonSetPending pre /\
       Object_ e = ObjDaemonSet d /\ daemonSetReady d = true) /\
  (errCanceled <> errClosed /\ errCanceled <> errInvalidDaemonSet /\
   errClosed <> errInvalidDaemonSet) /\
  (forall e1 d1 e2 d2 rest,
     Object_ e1 = ObjDaemonSet d1 -> Status_NumberUnavailable d1 = 1 ->
     Object_ e2 = ObjDaemonSet d2 -> daemonSetReady d2 = true ->
     MeshnetSpec_Healthy (inr [Recv e1]) = Blocked /\
     MeshnetSpec_Healthy (inr (Recv e1 :: Recv e2 :: rest)) = Returns None).
Proof.
  split; [exact daemonSetReady_iff|]. split; [|split; [|split]].
  - intros pre rest Hpre. cbn [MeshnetSpec_Healthy]. repeat split.
    + rewrite <- (app_nil_r pre). by rewrite MeshnetSpec_Healthy_loop_pending.
    + intros e d Hobj Hready. rewrite MeshnetSpec_Healthy_loop_pending by done.
      cbn. by rewrite Hobj, Hready.
    + by rewrite MeshnetSpec_Healthy_loop_pending.
    + by rewrite MeshnetSpec_Healthy_loop_pending.
    + intros e Hobj. rewrite MeshnetSpec_Healthy_loop_pending by done.
      cbn. destruct (Object_ e) as [|d|]; [done|by destruct (Hobj d)|done].
  - intros turns Hret. cbn [MeshnetSpec_Healthy] in Hret.
    destruct (MeshnetSpec_Healthy_loop_returns turns None Hret) as (pre & t & rest & -> & Hpre & _ & Ht).
    destruct t as [|e|]; cbn in Ht; try discriminate.
    destruct (Object_ e) as [|d|] eqn:Hobj; try discriminate.
    destruct (daemonSetReady d) eqn:Hready; try discriminate.
    by exists pre, e, d, rest.
  - repeat split; discriminate.
  - intros e1 d1 e2 d2 rest Ho1 Hu1 Ho2 Hr2.
    assert (Hn1 : daemonSetReady d1 = false).
    { unfold daemonSetReady. rewrite Hu1. apply andb_false_r. }
    cbn. by rewrite Ho1, Hn1, Ho2, Hr2.
Qed.

(** The theorem at the scenario of a deployment that comes up. *)
Lemma deploymentHealthy_first_ready_event_witness :
  deploymentHealthy (inr [Recv deploymentStarting]) = Blocked /\
  deploymentHealthy (inr ([Recv deploymentStarting] ++ [Recv deploymentUp])) = Returns None /\
  deploymentHealthy (inr ([Recv deploymentStarting] ++ [CtxDone])) = Returns (Some errCanceled) /\
  deploymentHealthy (inr ([Recv deploymentStarting] ++ [ChanClosed])) = Returns (Some errClosed) /\
  deploymentHealthy (inr ([Recv deploymentStarting] ++ [Recv watchError]))
    = Returns (Some errInvalidDeployment).
Proof.
  destruct deploymentHealthy_first_ready_event as (_ & _ & Hturn & _).
  assert (Hpre : Forall deploymentPending [Recv deploymentStarting]).
  { apply Forall_cons. split; [|apply Forall_nil_2].
    eexists _, _. split; [reflexivity|]. split; reflexivity. }
  destruct (Hturn [Recv deploymentStarting] [] Hpre) as (Hwait & Hok & Hcancel & Hclosed & Hother).
  split; [exact Hwait|]. split; [exact (Hok deploymentUp _ eq_refl eq_refl)|].
  split; [exact Hcancel|]. split; [exact Hclosed|].
  apply Hother. intros d. discriminate.
Defined.

(** The theorem at the scenario of the specification: a daemon-set with
    one pod unavailable first, the ready daemon-set second. *)
Lemma MeshnetSpec_Healthy_first_ready_event_witness :
  MeshnetSpec_Healthy (inr [Recv daemonSetBusy]) = Blocked /\
  MeshnetSpec_Healthy (inr [Recv daemonSetBusy; Recv daemonSetUp]) = Returns None /\
  MeshnetSpec_Healthy (inr ([Recv daemonSetBusy] ++ [CtxDone])) = Returns (Some errCanceled) /\
  MeshnetSpec_Healthy (inr ([Recv daemonSetBusy] ++ [ChanClosed])) = Returns (Some errClosed) /\
  MeshnetSpec_Healthy (inr ([Recv daemonSetBusy] ++ [Recv watchError]))
    = Returns (Some errInvalidDaemonSet).
Proof.
  destruct MeshnetSpec_Healthy_first_ready_event as (_ & Hturn & _ & _ & Hscenario).
  assert (Hpre : Forall daemonSetPending [Recv daemonSetBusy]).
  { apply Forall_cons. split; [|apply Forall_nil_2].
    eexists _, _. split; [reflexivity|]. split; reflexivity. }
  destruct (Hturn [Recv daemonSetBusy] [] Hpre) as (_ & _ & Hcancel & Hclosed & Hother).
  destruct (Hscenario daemonSetBusy _ daemonSetUp _ [] eq_refl eq_refl eq_refl eq_refl)
    as (Hwait & Hok).
  split; [exact Hwait|]. split; [exact Hok|].
  split; [exact Hcancel|]. split; [exact Hclosed|].
  apply Hother. intros d. discriminate.
Defined.

(** More turns of the same scenarios, run. *)
Example MeshnetSpec_Healthy_scenario :
  MeshnetSpec_Healthy (inr [Recv daemonSetBusy; Recv daemonSetBusy; Recv daemonSetUp; CtxDone])
    = Returns None /\
  MeshnetSpec_Healthy (inr [Recv daemonSetBusy; CtxDone; Recv daemonSetUp])
    = Returns (Some errCanceled) /\
  MeshnetSpec_Healthy (inr [Recv deploymentUp]) = Returns (Some errInvalidDaemonSet) /\
  MeshnetSpec_Healthy (inl (External "daemonsets is forbidden"))
    = Returns (Some (External "daemonsets is forbidden")).
Proof. by cbn. Qed.

Example deploymentHealthy_scenario :
  deploymentHealthy (inr [Recv deploymentStarting; Recv deploymentStarting; Recv deploymentUp])
    = Returns None /\
  deploymentHealthy (inr [Recv deploymentStarting; ChanClosed; Recv deploymentUp])
    = Returns (Some errClosed) /\
  deploymentHealthy (inr [Recv daemonSetUp]) = Returns (Some errInvalidDeployment).
Proof. by cbn. Qed.

End HealthFacts.

(** Membership in a list that is written out: split the hypothesis into
    its cases, find the element in the goal. *)
Ltac in_cases H :=
  repeat (apply elem_of_cons in H as [->|H]); [..|by apply elem_of_nil in H].
Ltac in_list := repeat first [apply list_elem_of_here | apply list_elem_of_further].

Section DependencyFacts.
Import Go Monad Host Scenarios.

Lemma append_assoc (a b c : string) : (a +:+ b) +:+ c = a +:+ (b +:+ c).
Proof.
  induction a as [|x a IH]; [done|].
  change (String x ((a +:+ b) +:+ c) = String x (a +:+ (b +:+ c))). by rewrite IH.
Qed.

Lemma contains_append_l (sub s t : string) : contains sub s -> contains sub (s +:+ t).
Proof.
  intros (pre & post & ->). exists pre, (post +:+ t). by rewrite !append_assoc.
Qed.

Lemma contains_append_r (sub s t : string) : contains sub t -> contains sub (s +:+ t).
Proof.
  intros (pre & post & ->). exists (s +:+ pre), post. by rewrite !append_assoc.
Qed.

(** A text that occurs in one of the joined strings occurs in the join. *)
Lemma contains_join (sub sep : string) (l : list string) (s : string) :
  s ∈ l -> contains sub s -> contains sub (join sep l).
Proof.
  induction l as [|x l IH]; intros Hin Hs; [by apply elem_of_nil in Hin|].
  apply elem_of_cons in Hin as [->|Hin].
  - destruct l; [done|]. cbn. by apply contains_append_l.
  - destruct l as [|y l]; [by apply elem_of_nil in Hin|].
    change (join sep (x :: y :: l)) with (x +:+ sep +:+ join sep (y :: l)).
    apply contains_append_r, contains_append_r. by apply IH.
Qed.

(** The loop of both dependency checks: every missing binary is added, in
    the order of the list, and no other error. *)
Lemma check_loop (st : Stubs) (bins : list string) : forall errs : list error,
  fold_left
    (fun errs bin =>
       match execLookPath st bin with
       | inl _ => errlist_Add errs (missingDependency bin)
       | inr _ => errs
       end) bins errs
  = errs ++ map missingDependency (filter (fun bin => isMissing st bin = true) bins).
Proof.
  induction bins as [|bin bins IH]; intros errs; cbn [fold_left].
  - by rewrite app_nil_r.
  - rewrite IH, filter_cons.
    destruct (decide (isMissing st bin = true)) as [Hm|Hm]; unfold isMissing in Hm;
      destruct (execLookPath st bin); try done.
    unfold errlist_Add. by rewrite <- app_assoc.
Qed.

(** The aggregated error names every missing binary of the list. *)
Lemma missing_named (sep : string) (st : Stubs) (bins : list string) (e : error) (bin : string) :
  errlist_Err (map missingDependency (filter (fun b => isMissing st b = true) bins)) = Some e ->
  bin ∈ bins -> isMissing st bin = true ->
  contains bin (Error sep (missingDependency bin)) ->
  contains bin (Error sep e).
Proof.
  intros He Hin Hm Hc.
  assert (Hl : missingDependency bin ∈
               map missingDependency (filter (fun b => isMissing st b = true) bins)).
  { apply list_elem_of_fmap. exists bin. split; [done|]. by apply list_elem_of_filter. }
  destruct (map missingDependency _) as [|e0 errs] eqn:Herrs; [by apply elem_of_nil in Hl|].
  cbn in He. injection He as <-. cbn [Error].
  apply (contains_join bin sep _ (Error sep (missingDependency bin))); [|done].
  apply list_elem_of_fmap. by exists (missingDependency bin).
Qed.

Lemma missingDependency_names (sep bin : string) :
  bin ∈ ["docker"; "kubectl"; "kind"; "gcloud"] ->
  contains bin (Error sep (missingDependency bin)).
Proof.
  intros Hin. exists ("install dependency " +:+ dq), (dq +:+ " to deploy").
  in_cases Hin; reflexivity.
Qed.

(** C7.  The pre-flight dependency checks do not stop at the first missing
    binary: the orchestrator's check over docker and kubectl, and the
    cluster provider's over kind (and gcloud when registries are
    configured), return nil when nothing is missing and otherwise one error
    that holds an entry for every missing binary, in the order checked, and
    whose message names each of them.  When docker and kubectl are both
    missing the orchestrator's check returns one error whose message is the
    two entries joined by the separator, naming both. *)
Theorem checkDependencies_collects_all_missing (st : Stubs) :
  Orchestrator.checkDependencies st =
    errlist_Err (map missingDependency
                   (filter (fun bin => isMissing st bin = true) ["docker"; "kubectl"])) /\
  (forall k, Kind.checkDependencies st k =
    errlist_Err (map missingDependency
                   (filter (fun bin => isMissing st bin = true) (Kind.kindBins k)))) /\
  (forall sep e bin,
     Orchestrator.checkDependencies st = Some e ->
     bin ∈ ["docker"; "kubectl"] -> isMissing st bin = true ->
     contains bin (Error sep e)) /\
  (forall sep k e bin,
     Kind.checkDependencies st k = Some e ->
     bin ∈ Kind.kindBins k -> isMissing st bin = true ->
     contains bin (Error sep e)) /\
  (isMissing st "docker" = true -> isMissing st "kubectl" = true ->
   Orchestrator.checkDependencies st =
     Some (ErrList [missingDependency "docker"; missingDependency "kubectl"]) /\
   forall sep,
     Error sep (ErrList [missingDependency "docker"; missingDependency "kubectl"]) =
       ("install dependency " +:+ dq +:+ "docker" +:+ dq +:+ " to deploy") +:+ sep +:+
       ("install dependency " +:+ dq +:+ "kubectl" +:+ dq +:+ " to deploy")).
Proof.
  assert (HO : Orchestrator.checkDependencies st =
    errlist_Err (map missingDependency
                   (filter (fun bin => isMissing st bin = true) ["docker"; "kubectl"]))).
  { unfold Orchestrator.checkDependencies. by rewrite check_loop. }
  assert (HK : forall k, Kind.checkDependencies st k =
    errlist_Err (map missingDependency
                   (filter (fun bin => isMissing st bin = true) (Kind.kindBins k)))).
  { intros k. unfold Kind.checkDependencies, Kind.kindBins. cbn zeta. rewrite check_loop.
    destruct (Kind.GoogleArtifactRegistries k); done. }
  split; [done|]. split; [done|]. split; [|split].
  - intros sep e bin He Hin Hm. rewrite HO in He.
    apply (missing_named sep st _ e bin He Hin Hm), missingDependency_names.
    in_cases Hin; in_list.
  - intros sep k e bin He Hin Hm. rewrite HK in He.
    apply (missing_named sep st _ e bin He Hin Hm), missingDependency_names.
    unfold Kind.kindBins in Hin. case_bool_decide; in_cases Hin; in_list.
  - intros Hd Hk. split; [|done].
    rewrite HO, !filter_cons, filter_nil.
    destruct (decide (isMissing st "docker" = true)); [|done].
    destruct (decide (isMissing st "kubectl" = true)); done.
Qed.

(** The theorem on a host with no binary on the path: one error, and its
    message names docker and kubectl. *)
Lemma checkDependencies_collects_all_missing_witness :
  Orchestrator.checkDependencies bareHost =
    Some (ErrList [missingDependency "docker"; missingDependency "kubectl"]) /\
  (forall sep,
     Error sep (ErrList [missingDependency "docker"; missingDependency "kubectl"]) =
       ("install dependency " +:+ dq +:+ "docker" +:+ dq +:+ " to deploy") +:+ sep +:+
       ("install dependency " +:+ dq +:+ "kubectl" +:+ dq +:+ " to deploy")) /\
  (forall sep, contains "docker" (Error sep (ErrList [missingDependency "docker";
                                                      missingDependency "kubectl"]))) /\
  (forall sep, contains "kubectl" (Error sep (ErrList [missingDependency "docker";
                                                       missingDependency "kubectl"]))).
Proof.
  destruct (checkDependencies_collects_all_missing bareHost) as (_ & _ & Hnamed & _ & Hboth).
  destruct (Hboth eq_refl eq_refl) as (Hret & Hmsg).
  split; [exact Hret|]. split; [exact Hmsg|]. split; intros sep.
  - apply (Hnamed sep _ "docker" Hret); [apply list_elem_of_here|reflexivity].
  - apply (Hnamed sep _ "kubectl" Hret);
      [apply list_elem_of_further, list_elem_of_here|reflexivity].
Defined.

(** With the separator of errlist, a comma and a space. *)
Example checkDependencies_both_missing :
  Error ", " <$> Orchestrator.checkDependencies bareHost =
    Some (("install dependency " +:+ dq +:+ "docker" +:+ dq +:+ " to deploy, ")
          +:+ "install dependency " +:+ dq +:+ "kubectl" +:+ dq +:+ " to deploy").
Proof. vm_compute. reflexivity. Qed.

End DependencyFacts.

Section KindFacts.
Import Go Monad Host Kind Scenarios.
Local Open Scope Z_scope.

(** The probe is no cluster-creation command. *)
Lemma clusterInfo_not_create (st : Stubs) (k : KindSpec) (name : string) :
  clusterInfo name <> createCluster st k.
Proof. discriminate. Qed.

(** A failed dependency check ends [Deploy] before any command is run. *)
Lemma KindSpec_Deploy_missing_dependency (st : Stubs) (k : KindSpec) (w : World) (e : error) :
  checkDependencies st k = Some e -> Deploy st k w = (inl e, w).
Proof. intros He. unfold Deploy, bind, lift. by rewrite He. Qed.

(** C9.  For every [KindSpec] with the recycle flag set: when the
    existence probe, the single read-only cluster-info query that [Deploy]
    runs once its dependency check has passed, succeeds, [Deploy] returns
    success at once.  The probe is the only command it ran, so the
    cluster-creation command is not invoked. *)
Theorem KindSpec_Deploy_recycles (st : Stubs) (k : KindSpec) (w : World) :
  Recycle k = true ->
  checkDependencies st k = None ->
  fst (execResult st (length (calls w)) (clusterInfo (Name k))) = None ->
  exists w',
    Deploy st k w = (inr tt, w') /\
    calls w' = calls w ++ [clusterInfo (Name k)] /\
    createCluster st k ∉ drop (length (calls w)) (calls w').
Proof.
  intros Hrec Hdeps Hprobe.
  unfold Deploy, bind, lift, catch, Exec. rewrite Hdeps, Hrec.
  destruct (execResult st (length (calls w)) (clusterInfo (Name k))) as [err out].
  cbn in Hprobe. subst err. eexists. split; [reflexivity|].
  assert (Hcalls : forall w0 : World,
            calls match execStdout w with
                  | StandardLoggerOut => set_calls (fun cs => cs ++ [clusterInfo (Name k)]) w
                  | BufferWriter b =>
                      set_buffers (insert b (Buffer_String b w +:+ out))
                        (set_calls (fun cs => cs ++ [clusterInfo (Name k)]) w)
                  end = calls w ++ [clusterInfo (Name k)]).
  { intros _. by destruct (execStdout w). }
  rewrite (Hcalls w). split; [done|].
  rewrite drop_app_length. intros Hin.
  apply elem_of_cons in Hin as [Heq|Hin]; [|by apply elem_of_nil in Hin].
  by apply (clusterInfo_not_create st k (Name k)).
Qed.

Lemma KindSpec_Deploy_recycles_witness :
  exists w',
    Deploy quietHost recycledSpec freshWorld = (inr tt, w') /\
    calls w' = calls freshWorld ++ [clusterInfo (Name recycledSpec)] /\
    createCluster quietHost recycledSpec ∉ drop (length (calls freshWorld)) (calls w').
Proof.
  apply (KindSpec_Deploy_recycles quietHost recycledSpec freshWorld); reflexivity.
Defined.

(** Without the recycle flag the same host creates the cluster. *)
Example KindSpec_Deploy_creates :
  calls (snd (Deploy quietHost
                {| Name := "kne"; Recycle := false; Version := EmptyString;
                   Image := EmptyString; Retain := false; Wait := 0;
                   Kubecfg := EmptyString; GoogleArtifactRegistries := [];
                   ContainerImages := []; KindConfigFile := EmptyString;
                   AdditionalManifests := [] |} freshWorld))
  = [["kind"; "create"; "cluster"; "--name"; "kne"]].
Proof. vm_compute. reflexivity. Qed.

Lemma bind_inr {S A B : Type} (m : M S A) (k : A -> M S B) (s s' : S) (a : A) :
  m s = (inr a, s') -> bind m k s = k a s'.
Proof. intros H. unfold bind. by rewrite H. Qed.

Lemma bind_inl {S A B : Type} (m : M S A) (k : A -> M S B) (s s' : S) (e : error) :
  m s = (inl e, s') -> bind m k s = (inl e, s').
Proof. intros H. unfold bind. by rewrite H. Qed.

Lemma defer_run {S A : Type} (cleanup : S -> S) (m : M S A) (s : S) :
  defer cleanup m s = (fst (m s), cleanup (snd (m s))).
Proof. unfold defer. by destruct (m s). Qed.

Lemma os_Setenv_docker_config (value : string) (w : World) :
  has_byte (Ascii.ascii_of_nat 0) value = false ->
  os_Setenv dockerConfigEnvVar value w = (inr tt, set_env (insert dockerConfigEnvVar value) w).
Proof. intros H. unfold os_Setenv. rewrite H. reflexivity. Qed.

Lemma os_Setenv_execStdout (key value : string) (w : World) :
  execStdout (snd (os_Setenv key value w)) = execStdout w.
Proof. unfold os_Setenv. by destruct (_ || _). Qed.

Lemma Exec_execStdout (st : Stubs) (argv : list string) (w : World) :
  execStdout (snd (Exec st argv w)) = execStdout w.
Proof. unfold Exec. destruct (execResult _ _ _), (execStdout w) eqn:Hw; by cbn. Qed.

(** A field that the steps of a computation keep is kept by the whole. *)
Lemma bind_keeps {S A B X : Type} (f : S -> X) (m : M S A) (k : A -> M S B) :
  (forall s, f (snd (m s)) = f s) -> (forall a s, f (snd (k a s)) = f s) ->
  forall s, f (snd (bind m k s)) = f s.
Proof.
  intros Hm Hk s. unfold bind. specialize (Hm s).
  destruct (m s) as [[e|a] s']; [done|]. cbn in Hm. by rewrite Hk.
Qed.

Lemma forEach_keeps {S A X : Type} (f : S -> X) (l : list A) (body : A -> M S unit) :
  (forall x s, f (snd (body x s)) = f s) ->
  forall s, f (snd (forEach l body s)) = f s.
Proof.
  intros Hbody. induction l as [|x l IH]; intros s; [done|].
  cbn [forEach]. by apply bind_keeps.
Qed.

Lemma on_success_bind {S A B : Type} (m : M S A) (k : A -> M S B) (s : S) (Q : S -> Prop) :
  (forall a s', m s = (inr a, s') -> on_success (k a) s' Q) ->
  on_success (bind m k) s Q.
Proof.
  intros H. unfold on_success, bind. destruct (m s) as [[e|a] s'] eqn:Hm; [done|].
  by apply (H a s').
Qed.

Lemma on_success_defer {S A : Type} (cleanup : S -> S) (m : M S A) (s : S) (Q Q' : S -> Prop) :
  (forall s', Q' s' -> Q (cleanup s')) -> on_success m s Q' ->
  on_success (defer cleanup m) s Q.
Proof.
  intros Hc. unfold on_success, defer. destruct (m s) as [[e|a] s']; [done|]. apply Hc.
Qed.

Lemma on_success_keeps {S A X : Type} (f : S -> X) (m : M S A) (s : S) (x : X) :
  (forall s, f (snd (m s)) = f s) -> f s = x -> on_success m s (fun s' => f s' = x).
Proof.
  intros Hm Hs. unfold on_success. specialize (Hm s).
  destruct (m s) as [[e|a] s']; [done|]. cbn in Hm. congruence.
Qed.

(** When the token command fails, the function returns through the early
    [return err] that follows [execer.SetStdout(&token)]: the execer keeps
    writing to the buffer. *)
Lemma setup_leaves_capture_when_token_fails (st : Stubs) (k : KindSpec) (w : World)
    (dir : string) (e : error) (out : string) :
  MkdirTemp st = inr dir ->
  has_byte (Ascii.ascii_of_nat 0) dir = false ->
  Create st (filepath_Join dir "config.json") = None ->
  execResult st (length (calls w)) ["gcloud"; "auth"; "print-access-token"] = (Some e, out) ->
  let r := setupGoogleArtifactRegistryAccess st k w in
  fst r = inl e /\ execStdout (snd r) = BufferWriter "token".
Proof.
  intros Hdir Hnul Hcreate Hexec. cbn zeta.
  unfold setupGoogleArtifactRegistryAccess.
  erewrite bind_inr by (unfold os_MkdirTemp, bind, lift; rewrite Hdir; reflexivity).
  rewrite defer_run. erewrite bind_inr by reflexivity. rewrite defer_run.
  erewrite bind_inr by (by apply os_Setenv_docker_config).
  erewrite bind_inr by (unfold writeDockerConfig; rewrite Hcreate; reflexivity).
  erewrite bind_inr by reflexivity.
  erewrite bind_inr by reflexivity.
  erewrite bind_inl
    by (unfold Exec; cbn [calls set_dirs set_env set_files set_buffers set_execStdout];
        rewrite Hexec; reflexivity).
  cbn [fst snd]. split; [done|].
  unfold os_RemoveAll. cbn [execStdout set_files set_dirs].
  by rewrite os_Setenv_execStdout.
Qed.

(** On the path without error the default sink is put back: both
    captures are followed by [execer.SetStdout(log.StandardLogger().Out)],
    and the commands after the second leave the sink alone. *)
Lemma setup_restores_sink_on_success (st : Stubs) (k : KindSpec) (w : World) :
  on_success (setupGoogleArtifactRegistryAccess st k) w
    (fun w' => execStdout w' = StandardLoggerOut).
Proof.
  unfold setupGoogleArtifactRegistryAccess.
  apply on_success_bind. intros dir w1 _.
  apply (on_success_defer _ _ _ _ (fun w' => execStdout w' = StandardLoggerOut)); [done|].
  apply on_success_bind. intros orig w2 _.
  apply (on_success_defer _ _ _ _ (fun w' => execStdout w' = StandardLoggerOut)).
  { intros s'. by rewrite os_Setenv_execStdout. }
  do 12 (apply on_success_bind; intros ? ? ?).
  match goal with
  | Hset : SetStdout StandardLoggerOut _ = (_, ?s1), Hget : gets _ ?s1 = (_, ?s2) |- _ =>
      assert (Hs : execStdout s2 = StandardLoggerOut)
        by (injection Hget as _ <-; by injection Hset as _ <-)
  end.
  apply (on_success_keeps execStdout); [|done].
  apply forEach_keeps. intros x s. apply bind_keeps; intros; apply Exec_execStdout.
Qed.

(** The credential-config variable reads as before when the function
    returns, with an error or without. *)
Lemma setup_restores_env (st : Stubs) (k : KindSpec) (w : World) :
  has_byte (Ascii.ascii_of_nat 0) (os_Getenv dockerConfigEnvVar w) = false ->
  os_Getenv dockerConfigEnvVar (snd (setupGoogleArtifactRegistryAccess st k w))
  = os_Getenv dockerConfigEnvVar w.
Proof.
  intros Hnul. unfold setupGoogleArtifactRegistryAccess, os_MkdirTemp.
  unfold bind at 1. unfold bind at 1. unfold lift.
  destruct (MkdirTemp st) as [e|dir]; [done|].
  unfold bind at 1. cbn [modify ret]. rewrite defer_run. cbn [snd].
  erewrite bind_inr by reflexivity. rewrite defer_run. cbn [snd].
  change (os_Getenv dockerConfigEnvVar (set_dirs (cons dir) w))
    with (os_Getenv dockerConfigEnvVar w).
  rewrite os_Setenv_docker_config by done.
  unfold os_Getenv, os_RemoveAll. cbn [env set_files set_dirs set_env snd].
  by rewrite lookup_insert_eq.
Qed.

(** C5 fails on the code.  One registry is configured and the cloud-auth
    tool fails: the function returns that error with the execer still
    writing to the token buffer, not to the default sink it had on entry,
    and the next command's output ends up in that buffer.  The
    credential-config variable and the temporary directory are restored,
    by their deferred calls. *)
Theorem setupGoogleArtifactRegistryAccess_keeps_capture_on_error :
  let r := setupGoogleArtifactRegistryAccess gcloudFails registrySpec freshWorld in
  execStdout freshWorld = StandardLoggerOut /\
  fst r = inl (External "exit status 1") /\
  execStdout (snd r) = BufferWriter "token" /\
  os_Getenv dockerConfigEnvVar (snd r) = os_Getenv dockerConfigEnvVar freshWorld /\
  dirs (snd r) = dirs freshWorld /\
  Buffer_String "token" (snd (Healthy gcloudFails registrySpec (snd r)))
    = "ok" +:+ newline.
Proof. cbn zeta. repeat split; vm_compute; reflexivity. Qed.

End KindFacts.

Section OrchestratorFacts.
Import Go Monad Host Orchestrator Scenarios.

(** Calls run in order: either all succeed and all are in the trace, or
    the first failing call is the last one in the trace and its error is
    the result. *)
Lemma run_spec (steps : list (Call * option error)) : forall tr0 : list Call,
  (fst (run steps tr0) = inr tt /\ Forall succeeded steps /\
   snd (run steps tr0) = tr0 ++ map fst steps) \/
  (exists pre s e post,
     steps = pre ++ (s, Some e) :: post /\ Forall succeeded pre /\
     fst (run steps tr0) = inl e /\ snd (run steps tr0) = tr0 ++ map fst pre ++ [s]).
Proof.
  induction steps as [|[c [e|]] steps IH]; intros tr0.
  - left. cbn. by rewrite app_nil_r.
  - right. exists [], c, e, steps. by cbn.
  - cbn [run]. unfold bind, call.
    destruct (IH (tr0 ++ [c])) as [(Hr & Hok & Htr)|(pre & s & e & post & -> & Hok & Hr & Htr)].
    + left. split; [done|]. split; [by constructor|].
      rewrite Htr. cbn [map fst]. by rewrite <- app_assoc.
    + right. exists ((c, None) :: pre), s, e, post.
      split; [done|]. split; [by constructor|]. split; [done|].
      rewrite Htr. cbn [map fst]. by rewrite <- !app_assoc.
Qed.

Lemma deployControllers_run (c : kClient) (cs : list Component) : forall (i : nat) (tr : list Call),
  deployControllers c i cs tr = run (controllerScript c i cs) tr.
Proof.
  induction cs as [|ctrl cs IH]; intros i tr; [done|].
  cbn [deployControllers controllerScript run]. unfold bind.
  destruct (call (ControllerDeploy i) (Component_Deploy ctrl) tr) as [[e|[]] tr1]; [done|].
  destruct (call (ControllerSetKClient i c) None tr1) as [[e|[]] tr2]; [done|].
  destruct (call (ControllerHealthy i) (Component_Healthy ctrl) tr2) as [[e|[]] tr3]; [done|].
  apply IH.
Qed.

(** After a passed dependency check, [Deploy] is the cluster's deploy, the
    construction of the client, and the rest of the script, in this order. *)
Lemma Deploy_run (st : Stubs) (cc : Clientcmd) (d : Deployment) (kubecfg : string)
    (tr : list Call) :
  checkDependencies st = None ->
  Deploy st cc d kubecfg tr =
    (call ClusterDeploy (Cluster_Deploy (Cluster_ d)) ;;
     c <- lift (buildClient cc kubecfg) ;;
     run (tail (script d c))) tr.
Proof.
  intros Hdeps. unfold Deploy, buildClient. rewrite Hdeps.
  cbn [script app tail run]. unfold bind, lift.
  repeat first
    [ match goal with
      | |- context [call ?x ?r ?t] => destruct (call x r t) as [[?|[]] ?]; [done|]
      end
    | destruct (BuildConfigFromFlags cc EmptyString kubecfg) as [?|rCfg]; [done|]
    | destruct (NewForConfig cc rCfg) as [?|c]; [done|] ].
  apply deployControllers_run.
Qed.

Lemma controllerScript_no_delete (c : kClient) (cs : list Component) : forall i : nat,
  ClusterDelete ∉ map fst (controllerScript c i cs).
Proof.
  induction cs as [|ctrl cs IH]; intros i Hin; [by apply elem_of_nil in Hin|].
  cbn in Hin. do 3 (apply elem_of_cons in Hin as [Heq|Hin]; [discriminate|]).
  by apply (IH (S i)).
Qed.

Lemma script_no_delete (d : Deployment) (c : kClient) : ClusterDelete ∉ map fst (script d c).
Proof.
  unfold script. rewrite map_app. intros Hin. apply elem_of_app in Hin as [Hin|Hin].
  - cbn in Hin. do 7 (apply elem_of_cons in Hin as [Heq|Hin]; [discriminate|]).
    by apply elem_of_nil in Hin.
  - by apply controllerScript_no_delete in Hin.
Qed.

Lemma Deploy_outcome (st : Stubs) (cc : Clientcmd) (d : Deployment) (kubecfg : string) :
  DeployOutcome st cc d kubecfg (Deploy st cc d kubecfg []).
Proof.
  unfold DeployOutcome. destruct (checkDependencies st) as [e|] eqn:Hdeps.
  - left. exists e. split; [done|]. unfold Deploy, bind, lift. by rewrite Hdeps.
  - right. split; [done|]. rewrite Deploy_run by done.
    unfold bind at 1.
    destruct (Cluster_Deploy (Cluster_ d)) as [e|] eqn:Hcluster; unfold call; cbn [app].
    + left. exists EmptyString, [], ClusterDeploy, e, (tail (script d EmptyString)).
      split; [by cbn; rewrite Hcluster|]. by repeat split.
    + unfold bind, lift. destruct (buildClient cc kubecfg) as [e|c] eqn:Hclient.
      * right. left. by exists e.
      * assert (Hscript : script d c = (ClusterDeploy, None) :: tail (script d c))
          by (by cbn; rewrite Hcluster).
        set (rest := tail (script d c)) in *.
        change ([] ++ [ClusterDeploy]) with [ClusterDeploy].
        destruct (run_spec rest [ClusterDeploy])
          as [(Hr & Hok & Htr)|(pre & s & e & post & Hpre & Hok & Hr & Htr)].
        -- right. right. exists c. split; [done|]. split.
           { rewrite Hscript. by constructor. }
           rewrite (surjective_pairing (run rest [ClusterDeploy])), Hr, Htr, Hscript. done.
        -- left. exists c, ((ClusterDeploy, None) :: pre), s, e, post.
           split; [by rewrite Hscript, Hpre|]. split; [by constructor|]. split; [done|].
           rewrite (surjective_pairing (run rest [ClusterDeploy])), Hr, Htr. done.
Qed.

(** C2.  For every deployment and every outcome of its components,
    [Deploy] calls the stages in the order of the script: cluster deploy,
    ingress deploy, ingress health wait, CNI deploy, CNI health wait, then
    deploy and health wait of each controller in configured order.  A
    failure at any step is returned at once: the failing call is the last
    one made, every call before it succeeded, and no later stage is
    attempted.  Nothing is torn down: the cluster's delete is never
    called. *)
Theorem Deployment_Deploy_stage_order
    (st : Stubs) (cc : Clientcmd) (d : Deployment) (kubecfg : string) :
  DeployOutcome st cc d kubecfg (Deploy st cc d kubecfg []) /\
  (ClusterDelete ∉ snd (Deploy st cc d kubecfg [])) /\
  (forall c, map fst (script d c) =
     [ClusterDeploy; IngressSetKClient c; IngressDeploy; IngressHealthy;
      CNIDeploy; CNISetKClient c; CNIHealthy] ++
     map fst (controllerScript c 0 (Controllers d))) /\
  (forall c i ctrl rest, map fst (controllerScript c i (ctrl :: rest)) =
     [ControllerDeploy i; ControllerSetKClient i c; ControllerHealthy i] ++
     map fst (controllerScript c (S i) rest)).
Proof.
  pose proof (Deploy_outcome st cc d kubecfg) as Hout.
  split; [done|]. split; [|split; [by intros; unfold script; rewrite map_app|done]].
  destruct Hout as [(e & _ & ->)|(_ & [Hfail|[Hclient|Hall]])].
  - apply not_elem_of_nil.
  - destruct Hfail as (c & pre & s & e & post & Hscript & _ & _ & ->).
    cbn [snd]. intros Hin. apply (script_no_delete d c). rewrite Hscript, map_app.
    cbn [map fst]. apply elem_of_app in Hin as [Hin|Hin]; apply elem_of_app; [by left|].
    right. apply elem_of_cons in Hin as [->|Hin]; [apply list_elem_of_here|].
    by apply elem_of_nil in Hin.
  - destruct Hclient as (e & _ & _ & ->). cbn [snd]. intros Hin.
    apply elem_of_cons in Hin as [Heq|Hin]; [discriminate|]. by apply elem_of_nil in Hin.
  - destruct Hall as (c & _ & _ & ->). apply script_no_delete.
Qed.

(** The scenario of the specification: every mock succeeds, one
    controller; the calls come in the order cluster, ingress, CNI,
    controller. *)
Example Deploy_all_succeed :
  Deploy quietHost clientBuilds
    {| Cluster_ := upCluster; Ingress := works; CNI := works; Controllers := [works] |}
    "kubecfg" []
  = (inr tt,
     [ClusterDeploy;
      IngressSetKClient "client of kubecfg"; IngressDeploy; IngressHealthy;
      CNIDeploy; CNISetKClient "client of kubecfg"; CNIHealthy;
      ControllerDeploy 0; ControllerSetKClient 0 "client of kubecfg"; ControllerHealthy 0]).
Proof. vm_compute. reflexivity. Qed.

(** The other scenario: the ingress health wait runs into its deadline;
    the CNI provider's deploy is not called. *)
Example Deploy_ingress_timeout :
  Deploy quietHost clientBuilds
    {| Cluster_ := upCluster;
       Ingress := {| Component_Deploy := None;
                     Component_Healthy := Some Health.errCanceled |};
       CNI := works; Controllers := [works] |}
    "kubecfg" []
  = (inl Health.errCanceled,
     [ClusterDeploy; IngressSetKClient "client of kubecfg"; IngressDeploy; IngressHealthy]).
Proof. vm_compute. reflexivity. Qed.

End OrchestratorFacts.

Section MetalLBFacts.
Import Go Monad Net Pool MetalLB Scenarios.
Local Open Scope Z_scope.

Lemma Exec_frame (e : Env) (argv : list string) (w : World) :
  let w' := snd (Exec e argv w) in
  secrets w' = secrets w /\ configMaps w' = configMaps w /\
  apiCalls w' = apiCalls w /\ dClient w' = dClient w.
Proof. unfold Exec. by destruct (Host.Exec _ _ _). Qed.

Lemma Exec_run (e : Env) (argv : list string) (w w' : World) (r : error + unit) :
  Exec e argv w = (r, w') ->
  secrets w' = secrets w /\ configMaps w' = configMaps w /\
  apiCalls w' = apiCalls w /\ dClient w' = dClient w.
Proof. intros H. pose proof (Exec_frame e argv w) as Hf. by rewrite H in Hf. Qed.

(** A sequence returns either the error of its first part or what its
    second part returns. *)
Lemma bind_inv {S A B : Type} (m : M S A) (k : A -> M S B) (s s' : S) (r : error + B) :
  bind m k s = (r, s') ->
  (exists e, m s = (inl e, s') /\ r = inl e) \/
  (exists a s1, m s = (inr a, s1) /\ k a s1 = (r, s')).
Proof.
  unfold bind. destruct (m s) as [[e|a] s1]; intros H.
  - left. exists e. by injection H as <- <-.
  - right. by exists a, s1.
Qed.

Tactic Notation "bind_inv" hyp(H) "as" ident(a) ident(s1) ident(Hm) :=
  let Heq := fresh "Heq" in
  apply bind_inv in H as [(? & Hm & Heq)|(a & s1 & Hm & H)];
  [first [discriminate Heq | injection Heq as -> | subst | idtac] | ].

(** The lazy construction of the runtime client touches no object of the
    cluster, and leaves a client when it succeeds. *)
Lemma dClient_init (e : Env) (w w' : World) (r : error + unit) :
  match dClient w with
  | None => c <- lift (NewClientWithOpts e) ;; modify (set_dClient (Some c))
  | Some _ => ret tt
  end w = (r, w') ->
  secrets w' = secrets w /\ configMaps w' = configMaps w /\ apiCalls w' = apiCalls w /\
  (r = inr tt -> is_Some (dClient w')).
Proof.
  destruct (dClient w) as [c|] eqn:Hdc.
  - intros H. injection H as <- <-. rewrite Hdc. eauto.
  - unfold bind, lift, modify. destruct (NewClientWithOpts e) as [err|c]; intros H;
      injection H as <- <-; cbn; repeat split; try done; eauto.
Qed.

(** The first half of [Deploy] leaves the config-maps alone; it leaves a
    secret that exists as it is and creates nothing then; and when it
    returns without error the secret exists and the runtime client is set. *)
Lemma deployPods_spec (e : Env) (m : MetalLBSpec) (w w' : World) (r : error + unit) :
  deployPods e m w = (r, w') ->
  configMaps w' = configMaps w /\
  (is_Some (secrets w !! memberlist) ->
     secrets w' = secrets w /\ creations w' = creations w) /\
  (r = inr tt -> is_Some (secrets w' !! memberlist) /\ is_Some (dClient w')).
Proof.
  intros Hrun. unfold deployPods in Hrun.
  bind_inv Hrun as dc w0 Hdc; [discriminate|]. injection Hdc as <- <-.
  bind_inv Hrun as u0 w1 Hinit.
  { apply dClient_init in Hinit as (Hs & Hc & Ha & _).
    unfold creations. rewrite Hs, Hc, Ha. by repeat split. }
  destruct u0. apply dClient_init in Hinit as (Hs1 & Hc1 & Ha1 & Hd1).
  specialize (Hd1 eq_refl).
  bind_inv Hrun as u1 w2 Hns.
  { apply Exec_run in Hns as (Hs & Hc & Ha & _).
    unfold creations. rewrite Hs, Hc, Ha, Hs1, Hc1, Ha1. by repeat split. }
  apply Exec_run in Hns as (Hs2 & Hc2 & Ha2 & Hd2).
  bind_inv Hrun as err w3 Hget.
  { unfold catch, Secrets_Get in Hget. by destruct (secrets _ !! _). }
  unfold catch, Secrets_Get in Hget.
  assert (Hlook : secrets w2 !! ("metallb-system", "memberlist") = secrets w !! memberlist)
    by (unfold memberlist; congruence).
  rewrite Hlook in Hget.
  destruct (secrets w !! memberlist) as [sec|] eqn:Hsec; injection Hget as <- <-.
  - (* the secret exists: nothing is created *)
    bind_inv Hrun as u3 w4 Hskip; [discriminate|]. injection Hskip as <- <-.
    apply Exec_run in Hrun as (Hs4 & Hc4 & Ha4 & Hd4). cbn in Hs4, Hc4, Ha4, Hd4.
    assert (Hsec' : secrets w' = secrets w) by congruence.
    split; [congruence|]. split.
    + intros _. split; [done|]. unfold creations. rewrite Ha4, filter_app. cbn.
      rewrite app_nil_r. congruence.
    + intros _. rewrite Hsec'. unfold memberlist in *. rewrite Hsec. split; [eauto|].
      congruence.
  - (* the secret is absent: it is created *)
    assert (Hc : forall s, Secret_Name s = "memberlist" ->
              Secrets_Create "metallb-system" s
                (log_api (SecretsGet "metallb-system" "memberlist") w2)
              = (inr s, set_secrets (insert ("metallb-system", "memberlist") s)
                          (log_api (SecretsCreate "metallb-system" s)
                             (log_api (SecretsGet "metallb-system" "memberlist") w2)))).
    { intros s Hname. unfold Secrets_Create. rewrite Hname. cbn [secrets log_api].
      by rewrite Hlook. }
    bind_inv Hrun as u3 w4 Hcreate.
    { bind_inv Hcreate as s4 w5 Hcr; [|discriminate]. by rewrite Hc in Hcr. }
    bind_inv Hcreate as s4 w5 Hcr.
    rewrite Hc in Hcr by done. injection Hcr as <- <-.
    destruct u3. injection Hcreate as <-.
    apply Exec_run in Hrun as (Hs4 & Hc4 & Ha4 & Hd4). cbn in Hs4, Hc4, Ha4, Hd4.
    split; [congruence|]. split; [by intros []|].
    intros _. split.
    + rewrite Hs4. unfold memberlist. rewrite lookup_insert_eq. eauto.
    + congruence.
Qed.

Lemma ConfigMaps_Create_creations (ns : string) (cm : ConfigMap) (w w' : World)
    (r : error + ConfigMap) :
  ConfigMaps_Create ns cm w = (r, w') ->
  secrets w' = secrets w /\
  (r = inr cm -> configMaps w' = <[(ns, ConfigMap_Name cm) := cm]> (configMaps w)).
Proof.
  unfold ConfigMaps_Create. destruct (configMaps w !! _); intros H; injection H as <- <-.
  - by split.
  - by split.
Qed.

(** The second half of [Deploy] leaves the secrets alone; when the
    config-map exists it succeeds, leaves the config-map as it is and
    creates nothing; and when it returns without error the config-map
    exists. *)
Lemma deployConfig_spec (e : Env) (m : MetalLBSpec) (w w' : World) (r : error + unit) :
  deployConfig e m w = (r, w') ->
  secrets w' = secrets w /\
  (is_Some (configMaps w !! config) ->
     r = inr tt /\ configMaps w' = configMaps w /\ creations w' = creations w) /\
  (r = inr tt -> is_Some (configMaps w' !! config)).
Proof.
  intros Hrun. unfold deployConfig in Hrun.
  bind_inv Hrun as err w1 Hget.
  { unfold catch, ConfigMaps_Get in Hget. by destruct (configMaps _ !! _). }
  unfold catch, ConfigMaps_Get in Hget. fold config in Hget.
  destruct (configMaps w !! config) as [cm|] eqn:Hcm; injection Hget as <- <-.
  - (* the config-map exists *)
    injection Hrun as <- <-. cbn. split; [done|]. split.
    + intros _. split; [done|]. split; [done|].
      unfold creations. cbn. rewrite filter_app. cbn. by rewrite app_nil_r.
    + intros _. rewrite Hcm. eauto.
  - (* the config-map is absent *)
    split; [|split; [by intros []|]].
    + bind_inv Hrun as dc w2 Hdc; [discriminate|]. injection Hdc as <- <-.
      bind_inv Hrun as nr w3 Hnr.
      { unfold lift in Hnr. by injection Hnr as _ <-. }
      unfold lift in Hnr. injection Hnr as _ <-.
      bind_inv Hrun as n w4 Hn.
      { unfold lift in Hn. by injection Hn as _ <-. }
      unfold lift in Hn. injection Hn as _ <-.
      destruct n as [n|]; [|by injection Hrun as _ <-].
      bind_inv Hrun as b w5 Hb.
      { unfold lift in Hb. by injection Hb as _ <-. }
      unfold lift in Hb. injection Hb as _ <-.
      bind_inv Hrun as cm w6 Hcreate.
      { by apply ConfigMaps_Create_creations in Hcreate as [-> _]. }
      apply ConfigMaps_Create_creations in Hcreate as [Hs _].
      injection Hrun as _ <-. by rewrite Hs.
    + intros ->.
      bind_inv Hrun as dc w2 Hdc. injection Hdc as <- <-.
      bind_inv Hrun as nr w3 Hnr. unfold lift in Hnr. injection Hnr as _ <-.
      bind_inv Hrun as n w4 Hn. unfold lift in Hn. injection Hn as _ <-.
      destruct n as [n|]; [|discriminate].
      bind_inv Hrun as b w5 Hb. unfold lift in Hb. injection Hb as _ <-.
      bind_inv Hrun as cm w6 Hcreate.
      unfold ConfigMaps_Create in Hcreate. cbn [ConfigMap_Name configMaps log_api] in Hcreate.
      fold config in Hcreate. rewrite Hcm in Hcreate. injection Hcreate as _ <-.
      injection Hrun as <-. cbn. rewrite lookup_insert_eq. eauto.
Qed.

(** C8.  When the secret memberlist and the config-map config exist in
    the component namespace, [Deploy] makes no creation call and leaves
    the secrets and the config-maps as they are.  A [Deploy] that returned
    without error leaves both in place, so a second [Deploy] after it
    creates nothing and overwrites nothing. *)
Theorem MetalLBSpec_Deploy_creates_nothing_when_present :
  (forall (e : Env) (m : MetalLBSpec) (w : World),
     is_Some (secrets w !! memberlist) -> is_Some (configMaps w !! config) ->
     let w' := snd (Deploy e m w) in
     creations w' = creations w /\ secrets w' = secrets w /\ configMaps w' = configMaps w) /\
  (forall (e1 e2 : Env) (m : MetalLBSpec) (w0 : World),
     fst (Deploy e1 m w0) = inr tt ->
     let w1 := snd (Deploy e1 m w0) in
     let w2 := snd (Deploy e2 m w1) in
     (is_Some (secrets w1 !! memberlist) /\ is_Some (configMaps w1 !! config)) /\
     creations w2 = creations w1 /\ secrets w2 = secrets w1 /\ configMaps w2 = configMaps w1).
Proof.
  assert (Hpresent : forall e m w,
     is_Some (secrets w !! memberlist) -> is_Some (configMaps w !! config) ->
     let w' := snd (Deploy e m w) in
     creations w' = creations w /\ secrets w' = secrets w /\ configMaps w' = configMaps w).
  { intros e m w Hsec Hcm. cbn zeta.
    destruct (Deploy e m w) as [r w'] eqn:Hrun. cbn [snd]. unfold Deploy in Hrun.
    bind_inv Hrun as u w1 Hpods.
    - apply deployPods_spec in Hpods as (Hc & Hs & _). destruct (Hs Hsec) as [-> ->]. done.
    - apply deployPods_spec in Hpods as (Hc & Hs & _). destruct (Hs Hsec) as [Hs1 Hcr1].
      apply deployConfig_spec in Hrun as (Hs2 & Hcm2 & _).
      rewrite Hc in Hcm2. destruct (Hcm2 Hcm) as (_ & Hc2 & Hcr2).
      split; [congruence|]. split; congruence. }
  split; [exact Hpresent|].
  intros e1 e2 m w0 Hok. cbn zeta.
  destruct (Deploy e1 m w0) as [r w1] eqn:Hrun. cbn [fst snd] in Hok |- *. subst r.
  assert (Hboth : is_Some (secrets w1 !! memberlist) /\ is_Some (configMaps w1 !! config)).
  { unfold Deploy in Hrun. bind_inv Hrun as u w' Hpods. destruct u.
    apply deployPods_spec in Hpods as (_ & _ & Hs). destruct (Hs eq_refl) as [Hs1 _].
    apply deployConfig_spec in Hrun as (Hs2 & _ & Hcm). rewrite Hs2. by split; [|apply Hcm]. }
  split; [done|]. destruct Hboth as [Hs Hc]. by apply Hpresent.
Qed.

(** The theorem on the cluster a first deploy left: the second deploy
    creates nothing. *)
Lemma MetalLBSpec_Deploy_creates_nothing_when_present_witness :
  let e := dockerReports [bridgeNetwork; kindNetwork] in
  let w1 := snd (Deploy e lbSpec emptyCluster) in
  let w2 := snd (Deploy e lbSpec w1) in
  (is_Some (secrets w1 !! memberlist) /\ is_Some (configMaps w1 !! config)) /\
  creations w2 = creations w1 /\ secrets w2 = secrets w1 /\ configMaps w2 = configMaps w1.
Proof.
  cbn zeta.
  apply (proj2 MetalLBSpec_Deploy_creates_nothing_when_present
           (dockerReports [bridgeNetwork; kindNetwork])
           (dockerReports [bridgeNetwork; kindNetwork]) lbSpec emptyCluster).
  vm_compute. reflexivity.
Defined.

(** The absent-network case: the search leaves the zero value, whose
    subnet list is empty. *)
Lemma findKind_absent (nr : list NetworkResource) (network : NetworkResource) :
  Forall (fun v => Network_Name v <> "kind") nr -> findKind nr network = network.
Proof.
  induction 1 as [|v nr Hv _ IH]; [done|]. cbn [findKind].
  by rewrite bool_decide_eq_false_2.
Qed.

Lemma findIPv4_none (e : Env) (network : NetworkResource) :
  noIPv4Subnet e network -> findIPv4 e (IPAM_Config network) = inr None.
Proof.
  unfold noIPv4Subnet. induction 1 as [|c cfgs (n & Hparse & Hv6) _ IH]; [done|].
  cbn [findIPv4]. by rewrite Hparse, Hv6.
Qed.

(** C10, as amended.  [Deploy] has come to network discovery: its first
    half succeeded, the config-map is absent, and the runtime returned the
    list [nr].  If no network of the list is named kind, or if every subnet
    entry of the first network named kind parses and none is IPv4, then
    [Deploy] returns the network-discovery error; all it did after the
    first half is the [Get] of the config-map, so no config-map is created.
    The absent-network case goes through the zero-value network and its
    empty subnet list. *)
Theorem MetalLBSpec_Deploy_no_kind_net
    (e : Env) (m : MetalLBSpec) (w w1 : World) (dc : DockerClient)
    (nr : list NetworkResource) :
  deployPods e m w = (inr tt, w1) ->
  configMaps w1 !! config = None ->
  dClient w1 = Some dc ->
  NetworkList dc = inr nr ->
  Forall (fun v => Network_Name v <> "kind") nr \/ noIPv4Subnet e (findKind nr zeroNetwork) ->
  Deploy e m w = (inl errNoKindNet, log_api (ConfigMapsGet "metallb-system" "config") w1) /\
  creations (snd (Deploy e m w)) = creations w1 /\
  configMaps (snd (Deploy e m w)) = configMaps w1 /\
  (Forall (fun v => Network_Name v <> "kind") nr ->
     findKind nr zeroNetwork = zeroNetwork /\ IPAM_Config (findKind nr zeroNetwork) = []).
Proof.
  intros Hpods Hcm Hdc Hnr Hnets.
  assert (Hnone : findIPv4 e (IPAM_Config (findKind nr zeroNetwork)) = inr None).
  { destruct Hnets as [Habsent|Hv6]; [|by apply findIPv4_none].
    by rewrite findKind_absent. }
  assert (Hrun : Deploy e m w
                 = (inl errNoKindNet, log_api (ConfigMapsGet "metallb-system" "config") w1)).
  { unfold Deploy. erewrite bind_inr by exact Hpods.
    unfold deployConfig.
    erewrite bind_inr
      by (unfold catch, ConfigMaps_Get; fold config; rewrite Hcm; reflexivity).
    cbv beta iota.
    erewrite bind_inr by reflexivity. cbn [dClient log_api]. rewrite Hdc.
    erewrite bind_inr by (unfold lift; rewrite Hnr; reflexivity).
    erewrite bind_inr by (unfold lift; rewrite Hnone; reflexivity).
    reflexivity. }
  rewrite Hrun. cbn [snd]. split; [done|]. split; [|split; [done|]].
  - unfold creations. cbn. rewrite filter_app. cbn. by rewrite app_nil_r.
  - intros Habsent. by rewrite findKind_absent.
Qed.

(** No network named kind: the discovery error, and only the secret was
    created. *)
Lemma MetalLBSpec_Deploy_no_kind_net_witness :
  Deploy (dockerReports [bridgeNetwork]) lbSpec emptyCluster
  = (inl errNoKindNet,
     log_api (ConfigMapsGet "metallb-system" "config")
       (snd (deployPods (dockerReports [bridgeNetwork]) lbSpec emptyCluster))) /\
  creations (snd (Deploy (dockerReports [bridgeNetwork]) lbSpec emptyCluster))
  = creations (snd (deployPods (dockerReports [bridgeNetwork]) lbSpec emptyCluster)) /\
  configMaps (snd (Deploy (dockerReports [bridgeNetwork]) lbSpec emptyCluster))
  = configMaps (snd (deployPods (dockerReports [bridgeNetwork]) lbSpec emptyCluster)) /\
  (Forall (fun v => Network_Name v <> "kind") [bridgeNetwork] ->
     findKind [bridgeNetwork] zeroNetwork = zeroNetwork /\
     IPAM_Config (findKind [bridgeNetwork] zeroNetwork) = []).
Proof.
  apply (MetalLBSpec_Deploy_no_kind_net (dockerReports [bridgeNetwork]) lbSpec emptyCluster
           (snd (deployPods (dockerReports [bridgeNetwork]) lbSpec emptyCluster))
           {| NetworkList := inr [bridgeNetwork] |} [bridgeNetwork]).
  - vm_compute. reflexivity.
  - vm_compute. reflexivity.
  - vm_compute. reflexivity.
  - reflexivity.
  - left. apply Forall_cons. split; [discriminate|]. apply Forall_nil_2.
Defined.

(** C10 as it was stated fails when a subnet entry of the kind network
    does not parse: the network has no IPv4 subnet entry, and [Deploy]
    returns the parse error, not the network-discovery error. *)
Lemma MetalLBSpec_Deploy_malformed_subnet :
  Forall (fun c => forall n, ParseCIDR (dockerReports [kindNetworkMalformed]) (Subnet c) = inr n ->
                             To4 (IP n) = None)
         (IPAM_Config (findKind [kindNetworkMalformed] zeroNetwork)) /\
  fst (Deploy (dockerReports [kindNetworkMalformed]) lbSpec emptyCluster)
  = inl (Errorf "invalid CIDR address: bogus") /\
  fst (Deploy (dockerReports [kindNetworkMalformed]) lbSpec emptyCluster) <> inl errNoKindNet.
Proof.
  split; [|split].
  - apply Forall_cons. split; [|apply Forall_nil_2]. intros n Hn. by vm_compute in Hn.
  - vm_compute. reflexivity.
  - vm_compute. discriminate.
Qed.

(** An IPv6-only kind network gives the discovery error as well. *)
Example MetalLBSpec_Deploy_ipv6_only :
  fst (Deploy (dockerReports [bridgeNetwork; kindNetworkV6]) lbSpec emptyCluster)
  = inl errNoKindNet.
Proof. vm_compute. reflexivity. Qed.

(** Two deploys on an empty cluster: the first creates the secret and the
    config-map with the pool of the specification's example, the second
    creates nothing. *)
Example MetalLBSpec_Deploy_twice :
  let e := dockerReports [bridgeNetwork; kindNetwork] in
  let first := Deploy e lbSpec emptyCluster in
  let second := Deploy e lbSpec (snd first) in
  fst first = inr tt /\ fst second = inr tt /\
  length (creations (snd first)) = 2%nat /\
  creations (snd second) = creations (snd first) /\
  Data <$> configMaps (snd second) !! config
  = Some {[ "config" := "address-pools:" +:+ Host.newline +:+
                        "- name: default" +:+ Host.newline +:+
                        "  protocol: layer2" +:+ Host.newline +:+
                        "  addresses:" +:+ Host.newline +:+
                        "  - 172.18.0.50 - 172.18.0.60" +:+ Host.newline ]}.
Proof. cbn zeta. repeat split; vm_compute; reflexivity. Qed.

End MetalLBFacts.

(* ================================================================== *)
(** * Part III: further properties of the code *)
(* ================================================================== *)

Section PoolMore.
Import Net Pool.
Local Open Scope Z_scope.

(** Byte slices of one length with one big-endian value are equal. *)
Lemma be_val_inj (l1 : list Z) : forall l2 : list Z,
  length l1 = length l2 -> Forall is_byte l1 -> Forall is_byte l2 ->
  be_val l1 = be_val l2 -> l1 = l2.
Proof.
  induction l1 as [|b1 l1 IH] using rev_ind; intros l2 Hlen H1 H2 Hval.
  - destruct l2; [done|discriminate].
  - destruct l2 as [|b2 l2 _] using rev_ind.
    { rewrite length_app in Hlen. cbn in Hlen. lia. }
    rewrite !length_app in Hlen. cbn in Hlen.
    rewrite Forall_app, Forall_singleton in H1, H2.
    destruct H1 as [H1 Hb1], H2 as [H2 Hb2]. unfold is_byte in Hb1, Hb2.
    rewrite !be_val_app in Hval.
    assert (be_val l1 = be_val l2 /\ b1 = b2) as [Hv ->] by lia.
    f_equal. apply IH; [lia|done..].
Qed.

(** X1.  [inc] on a byte slice of any length: the slice keeps its length
    and stays a byte slice, and for a non-negative count its big-endian
    value grows by the count modulo [256 ^ length]; so a 16-byte address is
    incremented as a 128-bit number, and the empty slice stays empty. *)
Theorem inc_any_length (ip : list Z) (cnt : Z) :
  Forall is_byte ip -> 0 <= cnt ->
  length (inc ip cnt) = length ip /\ Forall is_byte (inc ip cnt) /\
  be_val (inc ip cnt) = (be_val ip + cnt) mod 256 ^ Z.of_nat (length ip).
Proof.
  intros Hip Hcnt. destruct (inc_spec ip cnt Hip) as (Hl & Hb & Hv).
  split; [done|]. split; [done|]. by rewrite Hv, Z.max_r.
Qed.

Lemma inc_any_length_witness :
  length (inc (IP Scenarios.v6Subnet) 300) = length (IP Scenarios.v6Subnet) /\
  Forall is_byte (inc (IP Scenarios.v6Subnet) 300) /\
  be_val (inc (IP Scenarios.v6Subnet) 300)
  = (be_val (IP Scenarios.v6Subnet) + 300) mod 256 ^ Z.of_nat (length (IP Scenarios.v6Subnet)).
Proof.
  apply (inc_any_length (IP Scenarios.v6Subnet) 300); [|lia].
  repeat (apply Forall_cons; split; [unfold is_byte; lia|]). apply Forall_nil_2.
Defined.

(** X2.  Increments add up: advancing a byte slice by [a] and then by [b]
    is advancing it by [a + b], for non-negative [a] and [b]. *)
Theorem inc_inc (ip : list Z) (a b : Z) :
  Forall is_byte ip -> 0 <= a -> 0 <= b ->
  inc (inc ip a) b = inc ip (a + b).
Proof.
  intros Hip Ha Hb.
  destruct (inc_spec ip a Hip) as (Hl1 & Hb1 & Hv1).
  destruct (inc_spec (inc ip a) b Hb1) as (Hl2 & Hb2 & Hv2).
  destruct (inc_spec ip (a + b) Hip) as (Hl3 & Hb3 & Hv3).
  apply be_val_inj; [congruence|done..|].
  rewrite Hv2, Hv1, Hv3, Hl1, !Z.max_r, Z.add_mod_idemp_l, Z.add_assoc by lia. done.
Qed.

Lemma inc_inc_witness :
  inc (inc [10; 0; 255; 250] 50) 10 = inc [10; 0; 255; 250] (50 + 10).
Proof.
  apply (inc_inc [10; 0; 255; 250] 50 10); [|lia..].
  repeat (apply Forall_cons; split; [unfold is_byte; lia|]). apply Forall_nil_2.
Defined.

End PoolMore.

Section HealthMore.
Import Go K8s Health Scenarios.

(** X3.  A health watch that has returned is not changed by what arrives
    later: whatever [deploymentHealthy] or [MeshnetSpec.Healthy] returns
    after some turns of its loop, it returns after those turns followed by
    any others. *)
Theorem watch_return_is_final (turns more : list Select) :
  (forall r, deploymentHealthy (inr turns) = Returns r ->
             deploymentHealthy (inr (turns ++ more)) = Returns r) /\
  (forall r, MeshnetSpec_Healthy (inr turns) = Returns r ->
             MeshnetSpec_Healthy (inr (turns ++ more)) = Returns r).
Proof.
  split; intros r; cbn [deploymentHealthy MeshnetSpec_Healthy].
  - induction turns as [|t turns IH]; [discriminate|].
    destruct t as [|e|]; cbn; try done.
    destruct (Object_ e) as [d| |]; try done. by destruct (deploymentReady d).
  - induction turns as [|t turns IH]; [discriminate|].
    destruct t as [|e|]; cbn; try done.
    destruct (Object_ e) as [|d|]; try done. by destruct (daemonSetReady d).
Qed.

Lemma watch_return_is_final_witness :
  deploymentHealthy (inr ([Recv deploymentStarting; Recv deploymentUp] ++ [CtxDone]))
    = Returns None /\
  MeshnetSpec_Healthy (inr ([Recv daemonSetBusy; ChanClosed] ++ [Recv daemonSetUp]))
    = Returns (Some errClosed).
Proof.
  split.
  - exact (proj1 (watch_return_is_final [Recv deploymentStarting; Recv deploymentUp] [CtxDone])
             None eq_refl).
  - exact (proj2 (watch_return_is_final [Recv daemonSetBusy; ChanClosed] [Recv daemonSetUp])
             (Some errClosed) eq_refl).
Defined.

(** X19.  The health watches never look at the type of an event, only at
    the object it carries: with other event types on the same objects
    (a deletion, a bookmark, an error event in place of a modification)
    [deploymentHealthy] and [MeshnetSpec.Healthy] return the same. *)
Theorem watch_ignores_event_type (f : EventType -> EventType) (turns : list Select) :
  deploymentHealthy (inr (map (retype f) turns)) = deploymentHealthy (inr turns) /\
  MeshnetSpec_Healthy (inr (map (retype f) turns)) = MeshnetSpec_Healthy (inr turns).
Proof.
  cbn [deploymentHealthy MeshnetSpec_Healthy].
  split; induction turns as [|[|e|] turns IH]; cbn; try done.
  - destruct (Object_ e) as [d| |]; try done. by destruct (deploymentReady d).
  - destruct (Object_ e) as [|d|]; try done. by destruct (daemonSetReady d).
Qed.

End HealthMore.

Section OrchestratorMore.
Import Go Monad Host Orchestrator Scenarios.

Lemma healthyControllers_run (cs : list Component) : forall (i : nat) (tr : list Call),
  healthyControllers i cs tr = run (controllerHealthScript i cs) tr.
Proof.
  induction cs as [|ctrl cs IH]; intros i tr; [done|].
  cbn [healthyControllers controllerHealthScript run]. unfold bind.
  destruct (call (ControllerHealthy i) (Component_Healthy ctrl) tr) as [[e|[]] tr1]; [done|].
  apply IH.
Qed.

Lemma Healthy_run (d : Deployment) (tr : list Call) :
  Healthy d tr = run (healthScript d) tr.
Proof.
  unfold Healthy, healthScript. cbn [app run]. unfold bind.
  repeat match goal with
         | |- context [call ?x ?r ?t] => destruct (call x r t) as [[?|[]] ?]; [done|]
         end.
  apply healthyControllers_run.
Qed.

Lemma controllerHealthScript_calls (cs : list Component) : forall i : nat,
  Forall (fun c => isHealthCall c = true) (map fst (controllerHealthScript i cs)).
Proof.
  induction cs as [|ctrl cs IH]; intros i; cbn; [apply Forall_nil_2|].
  apply Forall_cons. split; [done|apply IH].
Qed.

Lemma controllerHealthScript_imap (cs : list Component) : forall i : nat,
  map fst (controllerHealthScript i cs) = imap (fun j _ => ControllerHealthy (i + j)) cs.
Proof.
  induction cs as [|ctrl cs IH]; intros i; [done|].
  cbn. rewrite Nat.add_0_r. f_equal. rewrite IH. apply imap_ext.
  intros j c _. cbn. f_equal. lia.
Qed.

(** X4.  [Deployment.Healthy] asks the cluster, the ingress, the CNI and
    then each controller in configured order.  Either every check succeeds
    and it returns nil after all of them, or it returns the error of the
    first check that fails and makes no check after it.  It calls nothing
    but health checks: no deploy, no client injection, no delete. *)
Theorem Deployment_Healthy_checks_in_order (d : Deployment) :
  ((Healthy d [] = (inr tt, map fst (healthScript d)) /\ Forall succeeded (healthScript d)) \/
   (exists pre s e post,
      healthScript d = pre ++ (s, Some e) :: post /\ Forall succeeded pre /\
      Healthy d [] = (inl e, map fst pre ++ [s]))) /\
  Forall (fun c => isHealthCall c = true) (snd (Healthy d [])) /\
  map fst (healthScript d) =
    [ClusterHealthy; IngressHealthy; CNIHealthy] ++
    imap (fun i _ => ControllerHealthy i) (Controllers d).
Proof.
  assert (Hall : Forall (fun c => isHealthCall c = true) (map fst (healthScript d))).
  { unfold healthScript. rewrite map_app. apply Forall_app. split.
    - cbn. repeat (apply Forall_cons; split; [done|]). apply Forall_nil_2.
    - apply controllerHealthScript_calls. }
  assert (Horder : map fst (healthScript d) =
    [ClusterHealthy; IngressHealthy; CNIHealthy] ++
    imap (fun i _ => ControllerHealthy i) (Controllers d)).
  { unfold healthScript. rewrite map_app, controllerHealthScript_imap. done. }
  rewrite Healthy_run.
  destruct (run_spec (healthScript d) [])
    as [(Hr & Hok & Htr)|(pre & s & e & post & Hpre & Hok & Hr & Htr)];
    rewrite (surjective_pairing (run (healthScript d) [])), Hr, Htr; cbn [app snd].
  - split; [by left|]. by split.
  - split; [right; by exists pre, s, e, post|]. split; [|done].
    rewrite Hpre, map_app in Hall. cbn [map fst] in Hall.
    apply Forall_app in Hall as [Hall1 Hall2]. apply Forall_app. split; [done|].
    apply Forall_cons in Hall2 as [Hs _]. by apply Forall_singleton.
Qed.

(** The second controller is not ready: the checks stop there. *)
Example Deployment_Healthy_second_controller_fails :
  Healthy {| Cluster_ := upCluster; Ingress := works; CNI := works;
             Controllers := [works;
                             {| Component_Deploy := None;
                                Component_Healthy := Some Health.errClosed |};
                             works] |} []
  = (inl Health.errClosed,
     [ClusterHealthy; IngressHealthy; CNIHealthy; ControllerHealthy 0; ControllerHealthy 1]).
Proof. vm_compute. reflexivity. Qed.

Lemma controllerScript_handedOver (c : kClient) (cs : list Component) :
  forall (i : nat) (seen pre : list Call) (x : Call) (post : list Call),
    map fst (controllerScript c i cs) = pre ++ x :: post ->
    handedOver c (seen ++ pre) x.
Proof.
  induction cs as [|ctrl cs IH]; intros i seen pre x post H.
  - by destruct pre.
  - cbn [controllerScript map fst] in H.
    destruct pre as [|p pre]; cbn [app] in H; [by injection H as <- _|].
    injection H as <- H.
    destruct pre as [|p pre]; cbn [app] in H; [by injection H as <- _|].
    injection H as <- H.
    destruct pre as [|p pre]; cbn [app] in H.
    { injection H as <- _. cbn. apply elem_of_app. right. in_list. }
    injection H as <- H.
    specialize (IH (S i) (seen ++ [ControllerDeploy i; ControllerSetKClient i c;
                                   ControllerHealthy i]) pre x post H).
    by rewrite <- app_assoc in IH.
Qed.

Lemma script_handedOver (d : Deployment) (c : kClient) (pre : list Call) (x : Call)
    (post : list Call) :
  map fst (script d c) = pre ++ x :: post -> handedOver c pre x.
Proof.
  unfold script. rewrite map_app. cbn [map fst app]. intros H.
  do 7 (destruct pre as [|? pre]; cbn [app] in H;
        [injection H as <- _; cbn; first [done | in_list]|injection H as <- H]).
  apply (controllerScript_handedOver c (Controllers d) 0
           [ClusterDeploy; IngressSetKClient c; IngressDeploy; IngressHealthy;
            CNIDeploy; CNISetKClient c; CNIHealthy] pre x post H).
Qed.

(** X20.  [Deploy] builds the client once and hands that client to every
    component: in every run, each call after the cluster's deploy is made
    with the client built from the kubeconfig; every [SetKClient] passes
    that client; the ingress gets it before it is deployed, and the CNI
    provider and each controller get it before their health wait. *)
Theorem Deployment_Deploy_hands_over_client
    (st : Stubs) (cc : Clientcmd) (d : Deployment) (kubecfg : string)
    (pre : list Call) (x : Call) (post : list Call) :
  snd (Deploy st cc d kubecfg []) = pre ++ x :: post ->
  (pre = [] /\ x = ClusterDeploy) \/
  (exists c, buildClient cc kubecfg = inr c /\ handedOver c pre x).
Proof.
  intros Htr.
  destruct (Deploy_outcome st cc d kubecfg)
    as [(e & _ & Hres)|(_ & [Hfail|[Hclient|Hall]])].
  - rewrite Hres in Htr. by destruct pre.
  - destruct Hfail as (c & spre & s & e & spost & Hscript & _ & Hbuilt & Hres).
    rewrite Hres in Htr. cbn [snd] in Htr.
    destruct spre as [|s0 spre].
    + left. cbn in Htr. unfold script in Hscript. cbn in Hscript.
      injection Hscript as <- _ _. destruct pre as [|p pre]; [by injection Htr as <-|].
      injection Htr as _ Htr. by destruct pre.
    + right. exists c. split; [by apply Hbuilt|].
      apply (script_handedOver d c pre x (post ++ map fst spost)).
      rewrite Hscript, map_app.
      change (map fst ((s, Some e) :: spost)) with ([s] ++ map fst spost).
      rewrite (app_assoc (map fst (s0 :: spre))), Htr, <- app_assoc. done.
  - destruct Hclient as (e & _ & _ & Hres). rewrite Hres in Htr. cbn [snd] in Htr. left.
    destruct pre as [|p pre]; [by injection Htr as <-|].
    injection Htr as _ Htr. by destruct pre.
  - destruct Hall as (c & Hbuilt & _ & Hres). rewrite Hres in Htr. cbn [snd] in Htr.
    right. exists c. split; [done|]. by apply (script_handedOver d c pre x post).
Qed.

Lemma Deployment_Deploy_hands_over_client_witness :
  exists c, buildClient clientBuilds "kubecfg" = inr c /\
            handedOver c [ClusterDeploy; IngressSetKClient "client of kubecfg"; IngressDeploy;
                          IngressHealthy; CNIDeploy; CNISetKClient "client of kubecfg"]
                       CNIHealthy.
Proof.
  destruct (Deployment_Deploy_hands_over_client quietHost clientBuilds
              {| Cluster_ := upCluster; Ingress := works; CNI := works;
                 Controllers := [works] |}
              "kubecfg"
              [ClusterDeploy; IngressSetKClient "client of kubecfg"; IngressDeploy;
               IngressHealthy; CNIDeploy; CNISetKClient "client of kubecfg"]
              CNIHealthy
              [ControllerDeploy 0; ControllerSetKClient 0 "client of kubecfg";
               ControllerHealthy 0])
    as [[Hpre _]|Hc].
  - vm_compute. reflexivity.
  - discriminate Hpre.
  - exact Hc.
Defined.

End OrchestratorMore.

Section KindMore.
Import Go Monad Host Kind Scenarios.
Local Open Scope Z_scope.

(** A command adds itself to the record of calls, and returns the error
    the host gives for it. *)
Lemma Exec_calls (st : Stubs) (argv : list string) (w : World) :
  fst (Exec st argv w)
  = match fst (execResult st (length (calls w)) argv) with
    | Some e => inl e
    | None => inr tt
    end /\
  calls (snd (Exec st argv w)) = calls w ++ [argv].
Proof.
  unfold Exec. destruct (execResult st (length (calls w)) argv) as [err out].
  by destruct (execStdout w).
Qed.

Lemma Exec_succeeds (st : Stubs) (argv : list string) (w : World) :
  allSucceed st ->
  exists w', Exec st argv w = (inr tt, w') /\ calls w' = calls w ++ [argv].
Proof.
  intros Hall. destruct (Exec_calls st argv w) as [Hr Hc]. rewrite Hall in Hr.
  exists (snd (Exec st argv w)). split; [|done].
  by rewrite (surjective_pairing (Exec st argv w)), Hr.
Qed.

Lemma wrap_Exec_succeeds (st : Stubs) (f : error -> error) (argv : list string) (w : World) :
  allSucceed st ->
  exists w', wrap f (Exec st argv) w = (inr tt, w') /\ calls w' = calls w ++ [argv].
Proof.
  intros Hall. destruct (Exec_succeeds st argv w Hall) as (w' & Hrun & Hc).
  exists w'. unfold wrap. by rewrite Hrun.
Qed.

(** A loop whose every pass succeeds and records its commands succeeds and
    records the commands of all passes, in order. *)
Lemma forEach_calls {A : Type} (body : A -> M World unit) (cmds : A -> list (list string)) :
  (forall x w, exists w', body x w = (inr tt, w') /\ calls w' = calls w ++ cmds x) ->
  forall (l : list A) (w : World),
    exists w', forEach l body w = (inr tt, w') /\ calls w' = calls w ++ concat (map cmds l).
Proof.
  intros Hbody l. induction l as [|x l IH]; intros w.
  - exists w. by rewrite app_nil_r.
  - destruct (Hbody x w) as (w1 & Hx & Hc1). destruct (IH w1) as (w2 & Hl & Hc2).
    exists w2. cbn [forEach]. erewrite bind_inr by exact Hx. split; [done|].
    rewrite Hc2, Hc1. cbn [map concat]. by rewrite <- app_assoc.
Qed.

Lemma checkDependencies_withoutRecycle (st : Stubs) (k : KindSpec) :
  checkDependencies st (withoutRecycle k) = checkDependencies st k.
Proof. done. Qed.

(** X5.  A failed recycle probe is not an error of [KindSpec.Deploy]: once
    the dependency check has passed, a [Deploy] with the recycle flag whose
    probe fails goes on exactly as a [Deploy] without the flag does in the
    state the probe left, where the probe is the one command recorded. *)
Theorem KindSpec_Deploy_probe_failure_creates
    (st : Stubs) (k : KindSpec) (w : World) (e : error) :
  Recycle k = true ->
  checkDependencies st k = None ->
  fst (execResult st (length (calls w)) (clusterInfo (Name k))) = Some e ->
  Deploy st k w = Deploy st (withoutRecycle k) (snd (Exec st (clusterInfo (Name k)) w)) /\
  calls (snd (Exec st (clusterInfo (Name k)) w)) = calls w ++ [clusterInfo (Name k)].
Proof.
  intros Hrec Hdeps Hprobe.
  destruct (Exec_calls st (clusterInfo (Name k)) w) as [Hr Hc]. rewrite Hprobe in Hr.
  split; [|done].
  unfold Deploy. rewrite checkDependencies_withoutRecycle, Hdeps, Hrec.
  cbn [Recycle withoutRecycle]. unfold bind, lift, catch.
  rewrite (surjective_pairing (Exec st (clusterInfo (Name k)) w)), Hr. cbn [ret].
  reflexivity.
Qed.

Lemma KindSpec_Deploy_probe_failure_creates_witness :
  Deploy noClusterHost recycledSpec freshWorld
  = Deploy noClusterHost (withoutRecycle recycledSpec)
      (snd (Exec noClusterHost (clusterInfo (Name recycledSpec)) freshWorld)) /\
  calls (snd (Exec noClusterHost (clusterInfo (Name recycledSpec)) freshWorld))
  = calls freshWorld ++ [clusterInfo (Name recycledSpec)].
Proof.
  apply (KindSpec_Deploy_probe_failure_creates noClusterHost recycledSpec freshWorld
           (External "exit status 1")); reflexivity.
Defined.

(** X6.  When the command that creates the cluster fails, [KindSpec.Deploy]
    (without a successful recycle) returns its error wrapped as "failed to
    create cluster", and runs no command after it: no manifest is applied,
    no registry set up, no image loaded. *)
Theorem KindSpec_Deploy_create_failure
    (st : Stubs) (k : KindSpec) (w : World) (e : error) :
  Recycle k = false ->
  checkDependencies st k = None ->
  fst (execResult st (length (calls w)) (createCluster st k)) = Some e ->
  fst (Deploy st k w) = inl (Wrapf "failed to create cluster" e) /\
  calls (snd (Deploy st k w)) = calls w ++ [createCluster st k].
Proof.
  intros Hrec Hdeps Hcreate.
  destruct (Exec_calls st (createCluster st k) w) as [Hr Hc]. rewrite Hcreate in Hr.
  assert (Hrun : Deploy st k w = (inl (Wrapf "failed to create cluster" e),
                                  snd (Exec st (createCluster st k) w))).
  { unfold Deploy. rewrite Hdeps, Hrec. unfold bind at 1. cbn [lift]. unfold bind at 1.
    cbn [ret]. unfold create.
    erewrite bind_inl
      by (unfold wrap; rewrite (surjective_pairing (Exec st (createCluster st k) w)), Hr;
          reflexivity).
    done. }
  by rewrite Hrun.
Qed.

Lemma KindSpec_Deploy_create_failure_witness :
  fst (Deploy createFailsHost fullSpec freshWorld)
  = inl (Wrapf "failed to create cluster" (External "exit status 1")) /\
  calls (snd (Deploy createFailsHost fullSpec freshWorld))
  = calls freshWorld ++ [createCluster createFailsHost fullSpec].
Proof.
  apply (KindSpec_Deploy_create_failure createFailsHost fullSpec freshWorld
           (External "exit status 1")); reflexivity.
Defined.

Lemma loadContainerImages_succeeds (st : Stubs) (k : KindSpec) (w : World) :
  allSucceed st ->
  exists w', loadContainerImages st k w = (inr tt, w') /\
             calls w' = calls w ++ concat (map (loadImage k) (ContainerImages k)).
Proof.
  intros Hall. unfold loadContainerImages.
  apply (forEach_calls _ (loadImage k)). intros [s d] w0.
  destruct (wrap_Exec_succeeds st (Wrapf ("failed to pull " +:+ quote s))
              ["docker"; "pull"; s] w0 Hall) as (w1 & H1 & Hc1).
  destruct (wrap_Exec_succeeds st (Wrapf ("failed to tag " +:+ quote s +:+ " with " +:+ quote d))
              ["docker"; "tag"; s; d] w1 Hall) as (w2 & H2 & Hc2).
  destruct (wrap_Exec_succeeds st (Wrapf ("failed to load " +:+ quote d))
              ("kind" :: ["load"; "docker-image"; d] ++ flag "--name" (Name k)) w2 Hall)
    as (w3 & H3 & Hc3).
  exists w3. erewrite bind_inr by exact H1. erewrite bind_inr by exact H2.
  split; [exact H3|]. rewrite Hc3, Hc2, Hc1. unfold loadImage. cbn [fst snd].
  by rewrite <- !app_assoc.
Qed.

(** X7.  On a host where every command succeeds, [KindSpec.Deploy] of a
    spec without private registries (and with no successful recycle) returns
    nil after running, in this order: the cluster creation, one apply per
    additional manifest in listed order, and for each configured image its
    pull, its tag and its load into the cluster. *)
Theorem KindSpec_Deploy_command_order (st : Stubs) (k : KindSpec) (w : World) :
  allSucceed st ->
  Recycle k = false ->
  checkDependencies st k = None ->
  GoogleArtifactRegistries k = [] ->
  fst (Deploy st k w) = inr tt /\
  calls (snd (Deploy st k w))
  = calls w ++ [createCluster st k]
            ++ map applyManifest (AdditionalManifests k)
            ++ concat (map (loadImage k) (ContainerImages k)).
Proof.
  intros Hall Hrec Hdeps Hreg.
  assert (Hrun : exists w', Deploy st k w = (inr tt, w') /\
            calls w' = calls w ++ [createCluster st k]
                       ++ map applyManifest (AdditionalManifests k)
                       ++ concat (map (loadImage k) (ContainerImages k))).
  { unfold Deploy. rewrite Hdeps, Hrec. unfold bind at 1. cbn [lift]. unfold bind at 1.
    cbn [ret]. unfold create. rewrite Hreg. cbn [length bool_decide decide_rel].
    destruct (wrap_Exec_succeeds st (Wrapf "failed to create cluster") (createCluster st k) w Hall)
      as (w1 & H1 & Hc1).
    erewrite bind_inr by exact H1.
    destruct (forEach_calls
                (fun s => wrap (Wrapf "failed to deploy manifest")
                               (Exec st ["kubectl"; "apply"; "-f"; s]))
                (fun s => [applyManifest s])
                (fun s w0 => wrap_Exec_succeeds st _ _ w0 Hall)
                (AdditionalManifests k) w1) as (w2 & H2 & Hc2).
    erewrite bind_inr by exact H2.
    assert (Hflat : forall l : list string,
              concat (map (fun s => [applyManifest s]) l) = map applyManifest l).
    { induction l as [|s l IH]; [done|]. cbn. by rewrite IH. }
    rewrite Hflat in Hc2.
    erewrite bind_inr by reflexivity.
    destruct (ContainerImages k) as [|img imgs] eqn:Himgs.
    - exists w2. split; [done|]. cbn. rewrite Hc2, Hc1, app_nil_r, <- app_assoc. done.
    - change (bool_decide (length (img :: imgs) <> 0%nat)) with true. cbv iota.
      destruct (loadContainerImages_succeeds st k w2 Hall) as (w3 & H3 & Hc3).
      exists w3. unfold wrap. rewrite H3. split; [done|].
      rewrite Hc3, Hc2, Hc1, Himgs, <- !app_assoc. done. }
  destruct Hrun as (w' & -> & Hc). done.
Qed.

Lemma KindSpec_Deploy_command_order_witness :
  fst (Deploy quietHost fullSpec freshWorld) = inr tt /\
  calls (snd (Deploy quietHost fullSpec freshWorld))
  = calls freshWorld ++ [createCluster quietHost fullSpec]
      ++ map applyManifest (AdditionalManifests fullSpec)
      ++ concat (map (loadImage fullSpec) (ContainerImages fullSpec)).
Proof.
  apply (KindSpec_Deploy_command_order quietHost fullSpec freshWorld); try reflexivity.
  intros n argv. reflexivity.
Defined.

(** The commands of the witness, written out. *)
Example KindSpec_Deploy_full :
  calls (snd (Deploy quietHost fullSpec freshWorld))
  = [ ["kind"; "create"; "cluster"; "--name"; "kne"; "--image"; "kindest/node:v1.22.1";
       "--retain"; "--wait"; "1m0s"];
      ["kubectl"; "apply"; "-f"; "/manifests/a.yaml"];
      ["kubectl"; "apply"; "-f"; "/manifests/b.yaml"];
      ["docker"; "pull"; "us-west1-docker.pkg.dev/kne/ceos:latest"];
      ["docker"; "tag"; "us-west1-docker.pkg.dev/kne/ceos:latest"; "ceos:latest"];
      ["kind"; "load"; "docker-image"; "ceos:latest"; "--name"; "kne"];
      ["docker"; "pull"; "ghcr.io/srl-labs/srlinux:latest"];
      ["docker"; "tag"; "ghcr.io/srl-labs/srlinux:latest"; "srlinux:latest"];
      ["kind"; "load"; "docker-image"; "srlinux:latest"; "--name"; "kne"] ].
Proof. vm_compute. reflexivity. Qed.

(** X8.  [setupGoogleArtifactRegistryAccess] leaves the credential-config
    variable as it read on entry, on every exit path: whether the temporary
    directory cannot be made, a step in between fails, or all succeeds,
    [os.Getenv] of DOCKER_CONFIG gives afterwards what it gave before. *)
Theorem setup_leaves_docker_config (st : Stubs) (k : KindSpec) (w : World) :
  has_byte (Ascii.ascii_of_nat 0) (os_Getenv dockerConfigEnvVar w) = false ->
  os_Getenv dockerConfigEnvVar (snd (setupGoogleArtifactRegistryAccess st k w))
  = os_Getenv dockerConfigEnvVar w.
Proof. apply setup_restores_env. Qed.

Lemma setup_leaves_docker_config_witness :
  os_Getenv dockerConfigEnvVar
    (snd (setupGoogleArtifactRegistryAccess cloudHost registrySpec freshWorld))
  = os_Getenv dockerConfigEnvVar freshWorld.
Proof.
  apply (setup_leaves_docker_config cloudHost registrySpec freshWorld). reflexivity.
Defined.

(** X9.  When [setupGoogleArtifactRegistryAccess] returns nil, the execer
    writes to the logger's output again, whatever it wrote to on entry. *)
Theorem setup_success_restores_sink (st : Stubs) (k : KindSpec) (w : World) :
  fst (setupGoogleArtifactRegistryAccess st k w) = inr tt ->
  execStdout (snd (setupGoogleArtifactRegistryAccess st k w)) = StandardLoggerOut.
Proof.
  intros Hok. pose proof (setup_restores_sink_on_success st k w) as H.
  unfold on_success in H.
  destruct (setupGoogleArtifactRegistryAccess st k w) as [[e|[]] w']; [discriminate|done].
Qed.

Lemma setup_success_restores_sink_witness :
  execStdout (snd (setupGoogleArtifactRegistryAccess cloudHost registrySpec
                     (set_execStdout (BufferWriter "caller") freshWorld)))
  = StandardLoggerOut.
Proof.
  apply (setup_success_restores_sink cloudHost registrySpec
           (set_execStdout (BufferWriter "caller") freshWorld)).
  vm_compute. reflexivity.
Defined.

Lemma prefix_append (a b : string) : String.prefix a (a +:+ b) = true.
Proof.
  induction a as [|c a IH]; [by destruct b|].
  cbn [String.prefix]. change (String c a +:+ b) with (String c (a +:+ b)).
  cbn [String.prefix]. destruct (Ascii.ascii_dec c c); [done|congruence].
Qed.

(** X10.  The temporary directory of
    [setupGoogleArtifactRegistryAccess] does not outlive the call: once
    [os.MkdirTemp] has made it, on every exit path the directory is gone
    and no file below it is left, the generated config.json included. *)
Theorem setup_removes_temp_dir (st : Stubs) (k : KindSpec) (w : World) (dir : string) :
  MkdirTemp st = inr dir ->
  let w' := snd (setupGoogleArtifactRegistryAccess st k w) in
  (dir ∉ dirs w') /\
  (forall name, files w' !! (dir +:+ "/" +:+ name) = None) /\
  (dir <> EmptyString -> files w' !! filepath_Join dir "config.json" = None).
Proof.
  intros Hdir. cbn zeta. unfold setupGoogleArtifactRegistryAccess.
  erewrite bind_inr by (unfold os_MkdirTemp, bind, lift; rewrite Hdir; reflexivity).
  rewrite defer_run. cbn [snd]. set (inner := snd _).
  assert (Hfiles : forall name, files (os_RemoveAll dir inner) !! (dir +:+ "/" +:+ name) = None).
  { intros name. unfold os_RemoveAll. cbn [files set_files set_dirs].
    apply map_lookup_filter_None. right. intros x _. cbn [fst].
    rewrite <- append_assoc, prefix_append. done. }
  split; [|split].
  - unfold os_RemoveAll. cbn [dirs set_files set_dirs].
    intros Hin. apply list_elem_of_filter in Hin as [Hne _]. done.
  - exact Hfiles.
  - intros Hne. unfold filepath_Join. rewrite bool_decide_eq_false_2 by done. apply Hfiles.
Qed.

Lemma setup_removes_temp_dir_witness :
  let w' := snd (setupGoogleArtifactRegistryAccess gcloudFails registrySpec freshWorld) in
  ("/tmp/kne_kind_docker1" ∉ dirs w') /\
  (forall name, files w' !! ("/tmp/kne_kind_docker1" +:+ "/" +:+ name) = None) /\
  ("/tmp/kne_kind_docker1" <> EmptyString ->
   files w' !! filepath_Join "/tmp/kne_kind_docker1" "config.json" = None).
Proof.
  apply (setup_removes_temp_dir gcloudFails registrySpec freshWorld "/tmp/kne_kind_docker1").
  reflexivity.
Defined.

Lemma Exec_std (st : Stubs) (argv : list string) (w : World) :
  allSucceed st -> execStdout w = StandardLoggerOut ->
  Exec st argv w = (inr tt, set_calls (fun cs => cs ++ [argv]) w).
Proof.
  intros Hall Hstd. unfold Exec. specialize (Hall (length (calls w)) argv).
  destruct (execResult st (length (calls w)) argv) as [err out]. cbn in Hall. subst err.
  by rewrite Hstd.
Qed.

Lemma Exec_buf (st : Stubs) (argv : list string) (w : World) (b : string) :
  allSucceed st -> execStdout w = BufferWriter b ->
  Exec st argv w
  = (inr tt,
     set_buffers (insert b (Buffer_String b w +:+ snd (execResult st (length (calls w)) argv)))
       (set_calls (fun cs => cs ++ [argv]) w)).
Proof.
  intros Hall Hbuf. unfold Exec. specialize (Hall (length (calls w)) argv).
  destruct (execResult st (length (calls w)) argv) as [err out]. cbn in Hall. subst err.
  by rewrite Hbuf.
Qed.

Lemma os_Setenv_calls (key value : string) (w : World) :
  calls (snd (os_Setenv key value w)) = calls w.
Proof. unfold os_Setenv. by destruct (_ || _). Qed.

(** A loop that keeps an invariant of the state. *)
Lemma forEach_inv {A : Type} (I : World -> Prop) (body : A -> M World unit)
    (cmds : A -> list (list string)) :
  (forall x w, I w ->
     exists w', body x w = (inr tt, w') /\ calls w' = calls w ++ cmds x /\ I w') ->
  forall (l : list A) (w : World), I w ->
    exists w', forEach l body w = (inr tt, w') /\
               calls w' = calls w ++ concat (map cmds l) /\ I w'.
Proof.
  intros Hbody l. induction l as [|x l IH]; intros w HI.
  - exists w. by rewrite app_nil_r.
  - destruct (Hbody x w HI) as (w1 & Hx & Hc1 & HI1).
    destruct (IH w1 HI1) as (w2 & Hl & Hc2 & HI2).
    exists w2. cbn [forEach]. erewrite bind_inr by exact Hx. split; [done|]. split; [|done].
    rewrite Hc2, Hc1. cbn [map concat]. by rewrite <- app_assoc.
Qed.

Lemma concat_map_singleton {A B : Type} (f : A -> B) (l : list A) :
  concat (map (fun x => [f x]) l) = map f l.
Proof. induction l as [|x l IH]; [done|]. cbn. by rewrite IH. Qed.

(** X11.  On a host where every command succeeds (and the temporary
    directory and the config file can be made),
    [setupGoogleArtifactRegistryAccess] returns nil after running, in this
    order: the token command; one docker login per registry in listed
    order, each with the very text the token command printed as password;
    the node query; and for each space-separated field of what the node
    query printed, the copy of the generated config.json into that node
    and the restart of its kubelet. *)
Theorem setup_command_order (st : Stubs) (k : KindSpec) (w : World) (dir : string) :
  allSucceed st ->
  MkdirTemp st = inr dir ->
  has_byte (Ascii.ascii_of_nat 0) dir = false ->
  Create st (filepath_Join dir "config.json") = None ->
  let token := snd (execResult st (length (calls w)) ["gcloud"; "auth"; "print-access-token"]) in
  let nodes := snd (execResult st (length (calls w) + 1 + length (GoogleArtifactRegistries k))
                      (getNodes k)) in
  fst (setupGoogleArtifactRegistryAccess st k w) = inr tt /\
  calls (snd (setupGoogleArtifactRegistryAccess st k w))
  = calls w ++ [["gcloud"; "auth"; "print-access-token"]]
            ++ map (dockerLogin token) (GoogleArtifactRegistries k)
            ++ [getNodes k]
            ++ concat (map (installOnNode (filepath_Join dir "config.json"))
                           (Split nodes (Ascii.ascii_of_nat 32))).
Proof.
  intros Hall Hdir Hnul Hcreate token nodes.
  unfold setupGoogleArtifactRegistryAccess.
  erewrite bind_inr by (unfold os_MkdirTemp, bind, lift; rewrite Hdir; reflexivity).
  rewrite defer_run. erewrite bind_inr by reflexivity. rewrite defer_run.
  set (r := bind (os_Setenv dockerConfigEnvVar dir) _ _).
  assert (Hr : exists wf, r = (inr tt, wf) /\
            calls wf = calls w ++ [["gcloud"; "auth"; "print-access-token"]]
                       ++ map (dockerLogin token) (GoogleArtifactRegistries k)
                       ++ [getNodes k]
                       ++ concat (map (installOnNode (filepath_Join dir "config.json"))
                                      (Split nodes (Ascii.ascii_of_nat 32)))).
  { subst r.
    erewrite bind_inr by (by apply os_Setenv_docker_config).
    erewrite bind_inr by (unfold writeDockerConfig; rewrite Hcreate; reflexivity).
    erewrite bind_inr by reflexivity.
    erewrite bind_inr by reflexivity.
    erewrite bind_inr by (by apply (Exec_buf st _ _ "token")).
    erewrite bind_inr by reflexivity.
    match goal with |- context [bind (forEach (GoogleArtifactRegistries k) ?body) _ ?w0] =>
      destruct (forEach_inv
                  (fun w1 => execStdout w1 = StandardLoggerOut /\
                             Buffer_String "token" w1 = token)
                  body (fun reg => [dockerLogin token reg])) with
        (l := GoogleArtifactRegistries k) (w := w0) as (w7 & Hlogin & Hc7 & Hstd7 & _)
    end.
    { intros reg w1 [Hstd Htok]. eexists. erewrite bind_inr by reflexivity.
      rewrite Htok. split; [by apply Exec_std|]. by split. }
    { split; [done|]. unfold Buffer_String. cbn [buffers set_execStdout set_buffers].
      rewrite lookup_insert_eq. cbn [default]. cbn [buffers set_calls set_execStdout set_buffers].
      rewrite lookup_insert_eq. done. }
    erewrite bind_inr by exact Hlogin.
    rewrite concat_map_singleton in Hc7.
    cbn [calls set_execStdout set_buffers set_calls set_files set_env set_dirs] in Hc7.
    erewrite bind_inr by reflexivity.
    erewrite bind_inr by reflexivity.
    erewrite bind_inr by (by apply (Exec_buf st _ _ "nodes")).
    erewrite bind_inr by reflexivity.
    erewrite bind_inr by reflexivity. cbv beta.
    match goal with |- context [forEach ?fields ?body ?w0] =>
      destruct (forEach_inv (fun w1 => execStdout w1 = StandardLoggerOut)
                  body (installOnNode (filepath_Join dir "config.json"))) with
        (l := fields) (w := w0) as (wf & Hinstall & Hcf & _)
    end.
    { intros field w1 Hstd. eexists.
      erewrite bind_inr by (by apply Exec_std).
      split; [by apply Exec_std|]. split; [|done].
      cbn [calls set_calls]. unfold installOnNode. by rewrite <- app_assoc. }
    { done. }
    exists wf. split; [exact Hinstall|].
    rewrite Hcf. cbn [calls set_execStdout set_buffers set_calls]. rewrite Hc7.
    rewrite <- !app_assoc. do 4 f_equal.
    unfold Buffer_String. cbn [buffers set_execStdout set_buffers set_calls].
    rewrite !lookup_insert_eq. cbn [default].
    unfold id, nodes, getNodes. rewrite !length_app, length_map. cbn [length].
    replace (length (calls w) + (1 + length (GoogleArtifactRegistries k)))%nat
      with (length (calls w) + 1 + length (GoogleArtifactRegistries k))%nat by lia.
    reflexivity. }
  destruct Hr as (wf & -> & Hcf). cbn [fst snd]. split; [done|].
  unfold os_RemoveAll. cbn [calls set_files set_dirs]. by rewrite os_Setenv_calls.
Qed.

Lemma setup_command_order_witness :
  fst (setupGoogleArtifactRegistryAccess cloudHost registrySpec freshWorld) = inr tt /\
  calls (snd (setupGoogleArtifactRegistryAccess cloudHost registrySpec freshWorld))
  = [ ["gcloud"; "auth"; "print-access-token"];
      ["docker"; "login"; "-u"; "oauth2accesstoken"; "-p"; "ya29.token";
       "https://us-west1-docker.pkg.dev"];
      ["kind"; "get"; "nodes"; "--name"; "kne"];
      ["docker"; "cp"; "/tmp/kne_kind_docker1/config.json";
       "kne-control-plane:/var/lib/kubelet/config.json"];
      ["docker"; "exec"; "kne-control-plane"; "systemctl"; "restart"; "kubelet.service"];
      ["docker"; "cp"; "/tmp/kne_kind_docker1/config.json";
       "kne-worker:/var/lib/kubelet/config.json"];
      ["docker"; "exec"; "kne-worker"; "systemctl"; "restart"; "kubelet.service"] ].
Proof.
  destruct (setup_command_order cloudHost registrySpec freshWorld "/tmp/kne_kind_docker1")
    as [Hret Hcalls].
  - intros n argv. cbn. repeat case_bool_decide; reflexivity.
  - reflexivity.
  - reflexivity.
  - reflexivity.
  - split; [exact Hret|]. rewrite Hcalls. vm_compute. reflexivity.
Defined.

End KindMore.

Section MetalLBMore.
Import Go Monad Net Pool MetalLB Scenarios.
Local Open Scope Z_scope.

Lemma keepsObjects_refl (w : World) : keepsObjects w w.
Proof. by repeat split. Qed.

Lemma keepsObjects_trans (w1 w2 w3 : World) :
  keepsObjects w1 w2 -> keepsObjects w2 w3 -> keepsObjects w1 w3.
Proof.
  intros (Ha & Hb & Hc & Hd) (Ha' & Hb' & Hc' & Hd'). repeat split.
  - intros key Hk. by rewrite Ha', Ha.
  - intros s Hs. by apply Hb', Hb.
  - intros key Hk. by rewrite Hc', Hc.
  - intros cm Hcm. by apply Hd', Hd.
Qed.

Lemma keepsObjects_same (w w' : World) :
  secrets w' = secrets w -> configMaps w' = configMaps w -> keepsObjects w w'.
Proof. intros Hs Hc. unfold keepsObjects. rewrite Hs, Hc. by repeat split. Qed.

Lemma keepsObjects_bind {A B : Type} (m : M World A) (k : A -> M World B) :
  (forall w, keepsObjects w (snd (m w))) ->
  (forall a w, keepsObjects w (snd (k a w))) ->
  forall w, keepsObjects w (snd (bind m k w)).
Proof.
  intros Hm Hk w. unfold bind. specialize (Hm w).
  destruct (m w) as [[err|a] w1]; [exact Hm|].
  eapply keepsObjects_trans; [exact Hm|apply Hk].
Qed.

Lemma keepsObjects_catch {A : Type} (m : M World A) :
  (forall w, keepsObjects w (snd (m w))) ->
  forall w, keepsObjects w (snd (catch m w)).
Proof. intros Hm w. unfold catch. specialize (Hm w). by destruct (m w) as [[err|a] w1]. Qed.

Lemma keepsObjects_Exec (e : Env) (argv : list string) (w : World) :
  keepsObjects w (snd (Exec e argv w)).
Proof. destruct (Exec_frame e argv w) as (Hs & Hc & _). by apply keepsObjects_same. Qed.

Lemma keepsObjects_Secrets_Create (s : Secret) (w : World) :
  Secret_Name s = "memberlist" ->
  keepsObjects w (snd (Secrets_Create "metallb-system" s w)).
Proof.
  intros Hname. unfold Secrets_Create. rewrite Hname. fold memberlist.
  destruct (secrets w !! memberlist) as [old|] eqn:Hold; cbn [snd].
  - by apply keepsObjects_same.
  - repeat split; cbn [secrets configMaps set_secrets log_api]; try done.
    + intros key Hk. by rewrite lookup_insert_ne.
    + intros s0 Hs0. congruence.
Qed.

Lemma keepsObjects_ConfigMaps_Create (cm : ConfigMap) (w : World) :
  ConfigMap_Name cm = "config" ->
  keepsObjects w (snd (ConfigMaps_Create "metallb-system" cm w)).
Proof.
  intros Hname. unfold ConfigMaps_Create. rewrite Hname. fold config.
  destruct (configMaps w !! config) as [old|] eqn:Hold; cbn [snd].
  - by apply keepsObjects_same.
  - repeat split; cbn [secrets configMaps set_configMaps log_api]; try done.
    + intros key Hk. by rewrite lookup_insert_ne.
    + intros s0 Hs0. congruence.
Qed.

(** X12.  Whatever the cluster holds and however it ends, [Deploy] changes
    no secret but memberlist and no config-map but config of the component
    namespace, and never replaces or removes either of the two when it
    exists already. *)
Theorem MetalLBSpec_Deploy_keeps_objects (e : Env) (m : MetalLBSpec) (w : World) :
  keepsObjects w (snd (Deploy e m w)).
Proof.
  unfold Deploy. apply keepsObjects_bind; [|intros _]; clear w.
  - unfold deployPods.
    apply keepsObjects_bind; [intros w; apply keepsObjects_refl|intros dc].
    apply keepsObjects_bind.
    { destruct dc as [c|]; [intros w; apply keepsObjects_refl|].
      apply keepsObjects_bind; [intros w; apply keepsObjects_refl|].
      intros c w. by apply keepsObjects_same. }
    intros _. apply keepsObjects_bind; [intros w; apply keepsObjects_Exec|intros _].
    apply keepsObjects_bind.
    { apply keepsObjects_catch. intros w. unfold Secrets_Get.
      destruct (secrets w !! _); by apply keepsObjects_same. }
    intros err. apply keepsObjects_bind; [|intros _ w; apply keepsObjects_Exec].
    destruct err as [err|]; [|intros w; apply keepsObjects_refl].
    apply keepsObjects_bind; [|intros _ w; apply keepsObjects_refl].
    intros w. by apply keepsObjects_Secrets_Create.
  - unfold deployConfig.
    apply keepsObjects_bind.
    { apply keepsObjects_catch. intros w. unfold ConfigMaps_Get.
      destruct (configMaps w !! _); by apply keepsObjects_same. }
    intros [err|]; [|intros w; apply keepsObjects_refl].
    apply keepsObjects_bind; [intros w; apply keepsObjects_refl|intros dc].
    apply keepsObjects_bind; [intros w; apply keepsObjects_refl|intros nr].
    apply keepsObjects_bind; [intros w; apply keepsObjects_refl|intros [n|]].
    2: { intros w; apply keepsObjects_refl. }
    apply keepsObjects_bind; [intros w; apply keepsObjects_refl|intros b].
    apply keepsObjects_bind; [|intros _ w; apply keepsObjects_refl].
    intros w. by apply keepsObjects_ConfigMaps_Create.
Qed.

Lemma MetalLB_Exec_succeeds (e : Env) (argv : list string) (w : World) :
  Host.allSucceed (host e) ->
  exists h, Exec e argv w = (inr tt, set_hostWorld h w) /\
            Host.calls h = Host.calls (hostWorld w) ++ [argv].
Proof.
  intros Hall. destruct (Exec_succeeds (host e) argv (hostWorld w) Hall) as (h & Hrun & Hc).
  exists h. unfold Exec. by rewrite Hrun.
Qed.

(** The first half of [Deploy] on a cluster without the secret, with a
    runtime client at hand or obtainable. *)
Lemma deployPods_fresh (e : Env) (m : MetalLBSpec) (w : World) (c : DockerClient) :
  Host.allSucceed (host e) ->
  dClient w = Some c \/ (dClient w = None /\ NewClientWithOpts e = inr c) ->
  secrets w !! memberlist = None ->
  exists w1,
    deployPods e m w = (inr tt, w1) /\
    dClient w1 = Some c /\
    secrets w1 = <[memberlist := memberlistSecret e]> (secrets w) /\
    configMaps w1 = configMaps w /\
    apiCalls w1 = apiCalls w ++ [SecretsGet "metallb-system" "memberlist";
                                 SecretsCreate "metallb-system" (memberlistSecret e)] /\
    Host.calls (hostWorld w1)
    = Host.calls (hostWorld w)
      ++ [["kubectl"; "apply"; "-f"; Host.filepath_Join (ManifestDir m) "namespace.yaml"];
          ["kubectl"; "apply"; "-f"; Host.filepath_Join (ManifestDir m) "metallb.yaml"]].
Proof.
  intros Hall Hclient Hsec. unfold memberlist in Hsec. unfold deployPods.
  erewrite bind_inr by reflexivity. cbv beta.
  assert (Hinit : exists w0,
            match dClient w with
            | None => c <- lift (NewClientWithOpts e) ;; modify (set_dClient (Some c))
            | Some _ => ret tt
            end w = (inr tt, w0) /\
            dClient w0 = Some c /\ secrets w0 = secrets w /\ configMaps w0 = configMaps w /\
            apiCalls w0 = apiCalls w /\ hostWorld w0 = hostWorld w).
  { destruct Hclient as [Hdc|[Hdc Hnew]]; rewrite Hdc.
    - exists w. by repeat split.
    - exists (set_dClient (Some c) w). unfold bind, lift. rewrite Hnew. by repeat split. }
  destruct Hinit as (w0 & Hinit & Hd0 & Hs0 & Hc0 & Ha0 & Hh0).
  erewrite bind_inr by exact Hinit.
  destruct (MetalLB_Exec_succeeds e
              ["kubectl"; "apply"; "-f"; Host.filepath_Join (ManifestDir m) "namespace.yaml"]
              w0 Hall) as (h1 & Hx1 & Hcalls1).
  erewrite bind_inr by exact Hx1.
  erewrite bind_inr
    by (unfold catch, Secrets_Get; cbn [secrets set_hostWorld]; rewrite Hs0, Hsec; reflexivity).
  cbv beta iota.
  erewrite bind_inr
    by (erewrite bind_inr
          by (unfold Secrets_Create; cbn [Secret_Name secrets set_hostWorld log_api];
              rewrite Hs0, Hsec; reflexivity);
        reflexivity).
  match goal with |- context [Exec e ?argv ?w3] =>
    destruct (MetalLB_Exec_succeeds e argv w3 Hall) as (h2 & Hx2 & Hcalls2)
  end.
  eexists. split; [exact Hx2|].
  cbn [dClient secrets configMaps apiCalls hostWorld set_hostWorld set_secrets log_api]
    in Hcalls2 |- *.
  rewrite Hd0, Hs0, Hc0, Ha0, Hcalls2, Hcalls1, Hh0, <- !app_assoc. by repeat split.
Qed.

(** X13.  On a cluster that has neither the secret nor the config-map,
    with a host whose commands succeed, a runtime that reports a kind
    network with an IPv4 subnet and a pool that marshals, [Deploy] returns
    nil after exactly this: namespace applied, secret looked up and
    created with the encoded 16 random bytes, pods applied, config-map
    looked up and created with the marshalled pool made from that subnet
    and [IPCount]. *)
Theorem MetalLBSpec_Deploy_fresh_cluster (e : Env) (m : MetalLBSpec) (w : World)
    (c : DockerClient) (nr : list NetworkResource) (n : IPNet) (b : string) :
  Host.allSucceed (host e) ->
  dClient w = None -> NewClientWithOpts e = inr c ->
  NetworkList c = inr nr ->
  findIPv4 e (IPAM_Config (findKind nr zeroNetwork)) = inr (Some n) ->
  yaml_Marshal e (makeConfig (IP_String_other e) n (IPCount m)) = inr b ->
  secrets w !! memberlist = None ->
  configMaps w !! config = None ->
  let w' := snd (Deploy e m w) in
  fst (Deploy e m w) = inr tt /\
  secrets w' = <[memberlist := memberlistSecret e]> (secrets w) /\
  configMaps w' = <[config := poolConfigMap b]> (configMaps w) /\
  apiCalls w' = apiCalls w ++ [SecretsGet "metallb-system" "memberlist";
                               SecretsCreate "metallb-system" (memberlistSecret e);
                               ConfigMapsGet "metallb-system" "config";
                               ConfigMapsCreate "metallb-system" (poolConfigMap b)] /\
  Host.calls (hostWorld w')
  = Host.calls (hostWorld w)
    ++ [["kubectl"; "apply"; "-f"; Host.filepath_Join (ManifestDir m) "namespace.yaml"];
        ["kubectl"; "apply"; "-f"; Host.filepath_Join (ManifestDir m) "metallb.yaml"]].
Proof.
  intros Hall Hdc Hnew Hlist Hnet Hyaml Hsec Hcm.
  destruct (deployPods_fresh e m w c Hall (or_intror (conj Hdc Hnew)) Hsec)
    as (w1 & Hpods & Hd1 & Hs1 & Hc1 & Ha1 & Hh1).
  unfold config in Hcm. unfold Deploy. erewrite bind_inr by exact Hpods.
  unfold deployConfig.
  erewrite bind_inr
    by (unfold catch, ConfigMaps_Get; rewrite Hc1, Hcm; reflexivity).
  cbv beta iota.
  erewrite bind_inr by reflexivity. cbv beta. cbn [dClient log_api]. rewrite Hd1.
  erewrite bind_inr by (unfold lift; rewrite Hlist; reflexivity).
  erewrite bind_inr by (unfold lift; rewrite Hnet; reflexivity).
  cbv beta iota.
  erewrite bind_inr by (unfold lift; rewrite Hyaml; reflexivity).
  erewrite bind_inr
    by (unfold ConfigMaps_Create; cbn [ConfigMap_Name configMaps log_api];
        rewrite Hc1, Hcm; reflexivity).
  cbn [fst snd ret secrets configMaps apiCalls hostWorld set_configMaps log_api].
  rewrite Hs1, Hc1, Ha1, Hh1, <- !app_assoc. by repeat split.
Qed.

Lemma MetalLBSpec_Deploy_fresh_cluster_witness :
  let e := dockerReports [bridgeNetwork; kindNetwork] in
  let w' := snd (Deploy e lbSpec emptyCluster) in
  fst (Deploy e lbSpec emptyCluster) = inr tt /\
  secrets w' = {[ memberlist := memberlistSecret e ]} /\
  (exists b, configMaps w' = {[ config := poolConfigMap b ]} /\
             yaml_Marshal e (makeConfig (IP_String_other e) kind_subnet 10) = inr b).
Proof.
  intros e w'.
  destruct (MetalLBSpec_Deploy_fresh_cluster e lbSpec emptyCluster
              {| NetworkList := inr [bridgeNetwork; kindNetwork] |}
              [bridgeNetwork; kindNetwork] kind_subnet
              (yamlPools (makeConfig (IP_String_other e) kind_subnet 10)))
    as (Hret & Hs & Hc & _).
  - intros k argv. reflexivity.
  - reflexivity.
  - reflexivity.
  - reflexivity.
  - vm_compute. reflexivity.
  - reflexivity.
  - reflexivity.
  - reflexivity.
  - split; [exact Hret|]. split; [exact Hs|]. eexists. split; [exact Hc|reflexivity].
Defined.

(** The first network named kind is the one taken. *)
Lemma findKind_first (pre post : list NetworkResource) (v d : NetworkResource) :
  Forall (fun u => Network_Name u <> "kind") pre ->
  Network_Name v = "kind" ->
  findKind (pre ++ v :: post) d = v.
Proof.
  intros Hpre Hv. induction Hpre as [|u pre Hu _ IH]; cbn [app findKind].
  - by rewrite bool_decide_eq_true_2.
  - by rewrite bool_decide_eq_false_2.
Qed.

(** X14.  Of the networks the runtime reports, the first one named kind
    is used, and of its subnet entries the first that is IPv4 or does not
    parse decides: an IPv4 net is taken, a parse error is returned, and
    neither the later networks nor the later entries are looked at. *)
Theorem kind_subnet_selection (e : Env) (pre post : list NetworkResource)
    (v : NetworkResource) (cpre cpost : list IPAMConfig) (c : IPAMConfig) :
  Forall (fun u => Network_Name u <> "kind") pre ->
  Network_Name v = "kind" ->
  IPAM_Config v = cpre ++ c :: cpost ->
  Forall (fun c' => exists n', ParseCIDR e (Subnet c') = inr n' /\ To4 (IP n') = None) cpre ->
  findIPv4 e (IPAM_Config (findKind (pre ++ v :: post) zeroNetwork))
  = match ParseCIDR e (Subnet c) with
    | inl err => inl err
    | inr n => match To4 (IP n) with
               | Some _ => inr (Some n)
               | None => findIPv4 e cpost
               end
    end.
Proof.
  intros Hpre Hv Hcfg Hcpre. rewrite (findKind_first pre post v zeroNetwork Hpre Hv), Hcfg.
  clear Hcfg. induction Hcpre as [|c' cpre (n' & Hparse & H4) _ IH]; cbn [app findIPv4].
  - destruct (ParseCIDR e (Subnet c)) as [err|n]; [done|]. by destruct (To4 (IP n)).
  - by rewrite Hparse, H4.
Qed.

Lemma kind_subnet_selection_witness :
  findIPv4 (dockerReports [])
    (IPAM_Config (findKind ([bridgeNetwork] ++ kindNetwork :: [kindNetworkMalformed])
                           zeroNetwork))
  = inr (Some kind_subnet).
Proof.
  rewrite (kind_subnet_selection (dockerReports []) [bridgeNetwork] [kindNetworkMalformed]
             kindNetwork [ {| Subnet := "fc00:f853:ccd:e793::/64" |} ] []
             {| Subnet := "172.18.0.0/16" |}).
  - reflexivity.
  - repeat constructor. discriminate.
  - reflexivity.
  - reflexivity.
  - repeat constructor. exists v6Subnet. split; reflexivity.
Defined.

(** X15.  When the runtime fails to list its networks on a cluster that
    has neither object, [Deploy] returns that error after it has created
    the secret and applied the pods: the secret stays, no config-map is
    made, and a client already set is used without building a new one. *)
Theorem MetalLBSpec_Deploy_network_list_failure (e : Env) (m : MetalLBSpec) (w : World)
    (c : DockerClient) (err : error) :
  Host.allSucceed (host e) ->
  dClient w = Some c ->
  NetworkList c = inl err ->
  secrets w !! memberlist = None ->
  configMaps w !! config = None ->
  let w' := snd (Deploy e m w) in
  fst (Deploy e m w) = inl err /\
  secrets w' = <[memberlist := memberlistSecret e]> (secrets w) /\
  configMaps w' = configMaps w /\
  creations w' = creations w ++ [SecretsCreate "metallb-system" (memberlistSecret e)] /\
  Host.calls (hostWorld w')
  = Host.calls (hostWorld w)
    ++ [["kubectl"; "apply"; "-f"; Host.filepath_Join (ManifestDir m) "namespace.yaml"];
        ["kubectl"; "apply"; "-f"; Host.filepath_Join (ManifestDir m) "metallb.yaml"]].
Proof.
  intros Hall Hdc Hlist Hsec Hcm.
  destruct (deployPods_fresh e m w c Hall (or_introl Hdc) Hsec)
    as (w1 & Hpods & Hd1 & Hs1 & Hc1 & Ha1 & Hh1).
  unfold config in Hcm. unfold Deploy. erewrite bind_inr by exact Hpods.
  unfold deployConfig.
  erewrite bind_inr
    by (unfold catch, ConfigMaps_Get; rewrite Hc1, Hcm; reflexivity).
  cbv beta iota.
  erewrite bind_inr by reflexivity. cbv beta. cbn [dClient log_api]. rewrite Hd1.
  erewrite bind_inl by (unfold lift; rewrite Hlist; reflexivity).
  cbn [fst snd secrets configMaps apiCalls hostWorld log_api].
  unfold creations. cbn [apiCalls log_api]. rewrite Hs1, Hc1, Ha1, Hh1, !filter_app.
  cbn. rewrite !app_nil_r. by repeat split.
Qed.

Lemma MetalLBSpec_Deploy_network_list_failure_witness :
  let c := {| NetworkList := inl (External "Cannot connect to the Docker daemon") |} in
  let w := set_dClient (Some c) emptyCluster in
  fst (Deploy (dockerReports []) lbSpec w)
  = inl (External "Cannot connect to the Docker daemon") /\
  configMaps (snd (Deploy (dockerReports []) lbSpec w)) = ∅.
Proof.
  intros c w.
  destruct (MetalLBSpec_Deploy_network_list_failure (dockerReports []) lbSpec w c
              (External "Cannot connect to the Docker daemon"))
    as (Hret & _ & Hc & _).
  - intros k argv. reflexivity.
  - reflexivity.
  - reflexivity.
  - reflexivity.
  - reflexivity.
  - split; [exact Hret|exact Hc].
Defined.

End MetalLBMore.

Section IxiaTGMore.
Import Go Monad Host IxiaTG Scenarios.

Lemma Exec_files (st : Stubs) (argv : list string) (w : World) :
  files (snd (Exec st argv w)) = files w.
Proof.
  unfold Exec. destruct (execResult st (length (calls w)) argv) as [err out].
  by destruct (execStdout w).
Qed.

(** X16.  Whatever fails or succeeds, [Deploy] leaves the files as it
    found them: the temporary file it makes for a structured config (a new
    name, as [os.CreateTemp] gives) is removed on every way out. *)
Theorem IxiaTGSpec_Deploy_leaves_no_temp_file (l : Lib) (i : IxiaTGSpec) (w : World) :
  (forall f, CreateTemp l = inr f -> files w !! f = None) ->
  files (snd (Deploy l i w)) = files w.
Proof.
  intros Hfresh. unfold Deploy. unfold bind at 1.
  match goal with |- context [Exec (host l) ?argv w] =>
    pose proof (Exec_files (host l) argv w) as Hf1;
    destruct (Exec (host l) argv w) as [[err|[]] w1]
  end; cbn [snd] in Hf1; [done|].
  destruct (ConfigMap i) as [cm|].
  - destruct (MarshalIndent l cm) as [err|b].
    { by erewrite bind_inl by reflexivity. }
    erewrite bind_inr by reflexivity. cbv zeta.
    unfold os_CreateTemp. destruct (CreateTemp l) as [err|f] eqn:Hct.
    { by erewrite bind_inl by (erewrite bind_inl by reflexivity; reflexivity). }
    erewrite bind_inr by (erewrite bind_inr by reflexivity; reflexivity).
    specialize (Hfresh f eq_refl). rewrite <- Hf1 in Hfresh |- *.
    rewrite defer_run. cbn [snd]. unfold os_Remove. cbn [files set_files]. unfold File_Write.
    destruct (Write l f _) as [err|].
    + erewrite bind_inl by reflexivity. cbn [snd files set_files]. by apply delete_insert_id.
    + erewrite bind_inr by reflexivity. rewrite Exec_files. cbn [files set_files].
      rewrite insert_insert_eq. by apply delete_insert_id.
  - destruct (osStat l _) as [err|]; [done|]. by rewrite Exec_files.
Qed.

Lemma IxiaTGSpec_Deploy_leaves_no_temp_file_witness :
  files (snd (Deploy ixiaLib ixiaInlineSpec freshWorld)) = files freshWorld.
Proof.
  apply (IxiaTGSpec_Deploy_leaves_no_temp_file ixiaLib ixiaInlineSpec freshWorld).
  intros f Hf. reflexivity.
Defined.

(** X17.  Without a structured config, when the operator manifest was
    applied and the config-map manifest is not found, [Deploy] returns
    ixia configmap not found with the text of the stat error, and no
    second command is run. *)
Theorem IxiaTGSpec_Deploy_missing_configmap_file (l : Lib) (i : IxiaTGSpec) (w : World)
    (err : error) :
  let operator := ["kubectl"; "apply"; "-f";
                   filepath_Join (ManifestDir i) "ixiatg-operator.yaml"] in
  fst (execResult (host l) (length (calls w)) operator) = None ->
  ConfigMap i = None ->
  osStat l (filepath_Join (ManifestDir i) "ixia-configmap.yaml") = Some err ->
  fst (Deploy l i w) = inl (Errorf ("ixia configmap not found: " +:+ Error ", " err)) /\
  calls (snd (Deploy l i w)) = calls w ++ [operator].
Proof.
  intros operator Hop Hcm Hstat. unfold Deploy. rewrite Hcm. cbv zeta. rewrite Hstat.
  destruct (Exec_calls (host l) operator w) as [Hr Hc]. rewrite Hop in Hr.
  assert (Hx : Exec (host l) operator w = (inr tt, snd (Exec (host l) operator w)))
    by (by rewrite <- Hr, <- surjective_pairing).
  erewrite bind_inr by exact Hx.
  by split.
Qed.

Lemma IxiaTGSpec_Deploy_missing_configmap_file_witness :
  fst (Deploy ixiaLib ixiaManifestSpec freshWorld)
  = inl (Errorf ("ixia configmap not found: stat /manifests/ixiatg/ixia-configmap.yaml: no such file or directory")) /\
  calls (snd (Deploy ixiaLib ixiaManifestSpec freshWorld))
  = [["kubectl"; "apply"; "-f"; "/manifests/ixiatg/ixiatg-operator.yaml"]].
Proof.
  apply (IxiaTGSpec_Deploy_missing_configmap_file ixiaLib ixiaManifestSpec freshWorld
           (External "stat /manifests/ixiatg/ixia-configmap.yaml: no such file or directory"));
    reflexivity.
Defined.

(** X18.  With a structured config, on a host whose commands succeed,
    [Deploy] writes the header followed by the marshalled config to the
    temporary file; when the write fails it returns that error and does
    not apply the file, otherwise it applies that file and returns nil. *)
Theorem IxiaTGSpec_Deploy_inline_config (l : Lib) (i : IxiaTGSpec) (w : World)
    (cm : IxiaTGConfigMap) (b f : string) :
  allSucceed (host l) ->
  ConfigMap i = Some cm ->
  MarshalIndent l cm = inr b ->
  CreateTemp l = inr f ->
  let operator := ["kubectl"; "apply"; "-f";
                   filepath_Join (ManifestDir i) "ixiatg-operator.yaml"] in
  match Write l f (ixiaTGConfigMapHeader +:+ b) with
  | Some err =>
      fst (Deploy l i w) = inl err /\
      calls (snd (Deploy l i w)) = calls w ++ [operator]
  | None =>
      fst (Deploy l i w) = inr tt /\
      calls (snd (Deploy l i w)) = calls w ++ [operator; ["kubectl"; "apply"; "-f"; f]]
  end.
Proof.
  intros Hall Hcm Hb Hf operator. unfold Deploy. rewrite Hcm.
  destruct (Exec_succeeds (host l) operator w Hall) as (w1 & Hx1 & Hc1).
  erewrite bind_inr by exact Hx1.
  erewrite bind_inr by (unfold lift; rewrite Hb; reflexivity). cbv zeta.
  erewrite bind_inr
    by (unfold os_CreateTemp; erewrite bind_inr by (unfold lift; rewrite Hf; reflexivity);
        reflexivity).
  rewrite defer_run. unfold File_Write, os_Remove. cbn [fst snd].
  destruct (Write l f (ixiaTGConfigMapHeader +:+ b)) as [err|].
  - erewrite bind_inl by reflexivity. cbn [fst snd calls set_files]. by rewrite Hc1.
  - erewrite bind_inr by reflexivity.
    match goal with |- context [Exec (host l) ?argv ?w2] =>
      destruct (Exec_succeeds (host l) argv w2 Hall) as (w3 & Hx3 & Hc3)
    end.
    rewrite Hx3. cbn [fst snd calls set_files] in Hc3 |- *.
    rewrite Hc3, Hc1, <- app_assoc. by split.
Qed.

Lemma IxiaTGSpec_Deploy_inline_config_witness :
  fst (Deploy ixiaLib ixiaInlineSpec freshWorld) = inr tt /\
  calls (snd (Deploy ixiaLib ixiaInlineSpec freshWorld))
  = [["kubectl"; "apply"; "-f"; "/manifests/ixiatg/ixiatg-operator.yaml"];
     ["kubectl"; "apply"; "-f"; "/tmp/ixiatg-configmap-1.yaml"]].
Proof.
  refine (IxiaTGSpec_Deploy_inline_config ixiaLib ixiaInlineSpec freshWorld
            {| Release := "0.0.1-9999";
               Images := [ {| Image_Name := "controller";
                              Path := "ghcr.io/open-traffic-generator/ixia-c-controller";
                              Tag := "0.0.1-2994" |} ] |}
            "{ release: 0.0.1-9999 }" "/tmp/ixiatg-configmap-1.yaml" _ _ _ _).
  - intros n argv. reflexivity.
  - reflexivity.
  - reflexivity.
  - reflexivity.
Defined.

End IxiaTGMore.
